(** * Cluster coordination core of the gateway ([pkg/cluster/cluster.go])

    A shallow embedding of the resource-lifecycle code of the cluster
    package: the lazily created client, lease, session and embedded server,
    the join protocol, the heartbeat and defragmentation loops, member purge
    and shutdown.

    Go methods on [*cluster] become computations in a small state monad over
    a system state (the [cluster] struct, the etcd store it talks to, and a
    trace of the calls and log lines it issued).  A Go [error] result is the
    [Err] outcome, a Go [panic] is the [Panic] outcome. *)

From Stdlib Require Import ZArith Lia Ascii String List.
From stdpp Require Import base numbers strings list gmap.

Local Open Scope Z_scope.

(* ===================================================================== *)
(** ** Machine integers *)

Definition maxUint64 : Z := 2 ^ 64 - 1.
Definition minInt64 : Z := - 2 ^ 63.
Definition maxInt64 : Z := 2 ^ 63 - 1.

Definition is_int64 (v : Z) : Prop := minInt64 <= v <= maxInt64.
Definition is_uint64 (v : Z) : Prop := 0 <= v <= maxUint64.

(** [uint64(v)] for an [int64] [v]: two's complement reinterpretation. *)
Definition to_uint64 (v : Z) : Z := v mod 2 ^ 64.

(** [int64(u)] for a [uint64] [u]. *)
Definition to_int64 (u : Z) : Z :=
  let r := u mod 2 ^ 64 in if r <? 2 ^ 63 then r else r - 2 ^ 64.

(** [clientv3.LeaseID] is an [int64]. *)
Definition LeaseID := Z.

(* ===================================================================== *)
(** ** The standard-library routines the lease record goes through *)

Module strconv.

(** The two error causes of [strconv.NumError]. *)
Inductive NumError := ErrSyntax | ErrRange.

Definition byte_of (c : ascii) : Z := Z.of_N (N_of_ascii c).

(** [lower(c) = c | ('x' - 'X')]. *)
Definition lower (c : Z) : Z := Z.lor c 32.

(** The digit value of one byte in [ParseUint], before the comparison
    with the base; [None] is the [default:] branch (a syntax error). *)
Definition digit_val (c : Z) : option Z :=
  if (48 <=? c) && (c <=? 57) then Some (c - 48)
  else if (97 <=? lower c) && (lower c <=? 122) then Some (lower c - 97 + 10)
  else None.

(** The loop of [ParseUint] for an explicit base (so [base0] is false and
    an underscore is a syntax error) and [bitSize = 64].  On a range error
    Go returns [maxVal] with [ErrRange]; the value is kept in the [inr]
    case of [ParseUint] below. *)
Fixpoint parse_loop (base : Z) (s : string) (n : Z) : NumError + Z :=
  match s with
  | EmptyString => inr n
  | String c rest =>
      match digit_val (byte_of c) with
      | None => inl ErrSyntax
      | Some d =>
          if base <=? d then inl ErrSyntax
          else if maxUint64 / base + 1 <=? n then inl ErrRange
          else
            let n0 := n * base in
            let n1 := (n0 + d) mod 2 ^ 64 in
            if (n1 <? n0) || (maxUint64 <? n1) then inl ErrRange
            else parse_loop base rest n1
      end
  end.

(** [strconv.ParseUint(s, base, 64)] for [2 <= base <= 36]: the value
    together with the error, as Go returns both. *)
Definition ParseUint (s : string) (base : Z) : Z * option NumError :=
  match s with
  | EmptyString => (0, Some ErrSyntax)
  | _ =>
      match parse_loop base s 0 with
      | inr n => (n, None)
      | inl ErrSyntax => (0, Some ErrSyntax)
      | inl ErrRange => (maxUint64, Some ErrRange)
      end
  end.

(** [strconv.ParseInt(s, base, 64)]. *)
Definition ParseInt (s : string) (base : Z) : NumError + Z :=
  match s with
  | EmptyString => inl ErrSyntax
  | String c0 rest =>
      let '(neg, s') :=
        if Ascii.eqb c0 "+" then (false, rest)
        else if Ascii.eqb c0 "-" then (true, rest)
        else (false, s) in
      match ParseUint s' base with
      | (_, Some ErrSyntax) => inl ErrSyntax
      | (un, _) =>
          let cutoff := 2 ^ 63 in
          if negb neg && (cutoff <=? un) then inl ErrRange
          else if neg && (cutoff <? un) then inl ErrRange
          else
            let n := to_int64 un in
            inr (if neg then to_int64 (- n) else n)
      end
  end.

End strconv.

Module fmt.

(** [ldigits = "0123456789abcdefx"], indexed by a value below 16. *)
Definition ldigit (d : Z) : ascii :=
  match d with
  | 0 => "0" | 1 => "1" | 2 => "2" | 3 => "3"
  | 4 => "4" | 5 => "5" | 6 => "6" | 7 => "7"
  | 8 => "8" | 9 => "9" | 10 => "a" | 11 => "b"
  | 12 => "c" | 13 => "d" | 14 => "e" | _ => "f"
  end%char.

(** The digit loop of [fmtInteger] for base 16: emit the low digit and
    shift while [u >= 16], then the leading digit.  A [uint64] has at most
    16 hexadecimal digits, which bounds the recursion. *)
Fixpoint hex_loop (fuel : nat) (u : Z) (acc : string) : string :=
  match fuel with
  | O => acc
  | S fuel' =>
      if u <? 16 then String (ldigit u) acc
      else hex_loop fuel' (Z.shiftr u 4) (String (ldigit (Z.land u 15)) acc)
  end.

(** [fmt.Sprintf("%x", v)] for a signed 64-bit [v]: sign and magnitude. *)
Definition Sprintf_x (v : Z) : string :=
  let negative := v <? 0 in
  let u := if negative then to_uint64 (- to_uint64 v) else to_uint64 v in
  let digits := hex_loop 16 u EmptyString in
  if negative then String "-" digits else digits.

End fmt.

(** [strTolease]: parse the persisted lease record. *)
Definition strTolease (s : string) : strconv.NumError + LeaseID :=
  match strconv.ParseInt s 16 with
  | inl err => inl err
  | inr lease => inr lease
  end.

(* ===================================================================== *)
(** ** Data model *)

Local Open Scope string_scope.
Local Open Scope list_scope.
Local Open Scope Z_scope.

(** Pointers to client, session and embedded-server objects. *)
Definition handle := nat.

(** [time.Duration], in nanoseconds. *)
Definition Duration := Z.
Definition Second : Duration := 1000000000.
Definition Minute : Duration := 60 * Second.
Definition Hour : Duration := 60 * Minute.

Definition HeartbeatInterval : Duration := 5 * Second.
Definition defragNormalInterval : Duration := 1 * Hour.
Definition defragFailedInterval : Duration := 1 * Minute.
Definition waitServerTimeout : Duration := 10 * Second.

(** [clientv3.MaxLeaseTTL]. *)
Definition leaseTTL : Z := 9000000000.

Module pb.
(** A member as the store's member list reports it. *)
Record Member := { ID : Z; Name : string; PeerURLs : list string }.
End pb.

(** The local identity kept by the membership registry. *)
Record member := { Name : string; ID : Z; PeerURL : string }.

(** Modelled from the spec: the membership registry [members] (its source
    file is not part of this development).  It holds the local identity and
    the known members, answers "known peer URLs" and "known member count",
    and ingests a raw member-list response by overwriting its view. *)
Record members := { self : member; known : list pb.Member }.

Definition knownMembersLen (m : members) : nat := length (known m).

Definition knownPeerURLs (m : members) : list string :=
  concat (map pb.PeerURLs (known m)).

Definition updateClusterMembers (resp : list pb.Member) (m : members)
  : members :=
  {| self := self m; known := resp |}.

(** The fields of [option.Options] the cluster code reads. *)
Record Options := {
  ClusterRole : string;
  ForceNewCluster : bool;
  ClusterPeerURL : string
}.

(** Modelled from the spec: the key layout, three opaque key-producing
    functions (this node's lease key, this node's status key, and the lease
    key of a member given by name). *)
Record Layout := {
  Lease : string;
  StatusMemberKey : string;
  OtherLease : string -> string
}.

(** The [cluster] struct.  A nil pointer is [None]; [done] records whether
    the channel has been closed.  The four mutexes are not modelled: every
    method runs as one atomic step. *)
Record cluster := {
  opt : Options;
  layout : Layout;
  cmembers : members;
  server : option handle;
  client : option handle;
  lease : option LeaseID;
  session : option handle;
  done : bool
}.

(** Calls that leave the process: the etcd client library, the embedded
    server, and the two serialisers used by the status publish. *)
Inductive rpc :=
| NewClient (endpoints : list string)
| ClientClose (h : handle)
| KvGet (key : string)
| KvPut (key val : string) (l : LeaseID)
| LeaseGrant (ttl : Z)
| LeaseRevoke (l : LeaseID)
| MemberList
| MemberAdd (peerURLs : list string)
| MemberRemove (id : Z)
| Defragment (endpoint : string)
| NewSession (cli : handle) (l : LeaseID)
| SessionClose (h : handle)
| PrepareEtcdConfig
| StartEtcd
| ServerClose (h : handle)
| ServerHardStop (h : handle)
| ListenersClose (h : handle)
| UnmarshalSelfStats (h : handle)
| MarshalStatus.

Inductive level := Info | Error.

(** What a run leaves behind for an observer: each outgoing call with its
    outcome, each log line (by its format string), and the deferred
    [wg.Done()]. *)
Inductive event :=
| Call (r : rpc) (ok : bool)
| Log (lv : level) (msg : string)
| WgDone.

(** The store and the other objects outside the [cluster] struct.
    [fails n r] says whether call [r], issued as the [n]-th outgoing call,
    returns an error; [lease_ids] and [member_ids] are the identifiers the
    store hands out, [status_doc] the serialised status document, each by
    the time of the call. *)
Record etcd := {
  kv : gmap string (string * LeaseID);
  member_list : list pb.Member;
  ready : gset handle;
  closed : gset handle;
  fresh : handle;
  clock : nat;
  fails : nat -> rpc -> bool;
  lease_ids : nat -> LeaseID;
  member_ids : nat -> Z;
  status_doc : nat -> string
}.

Record world := { node : cluster; env : etcd }.

(** Errors returned by the methods, one constructor per message. *)
Inductive error :=
| ErrCall (r : rpc)                      (* the library's own error *)
| ErrCreateClient (cause : error)        (* "create client failed: %v" *)
| ErrLeaseNotReady                       (* "lease is not ready" *)
| ErrParseLease (cause : strconv.NumError)
| ErrPutLease (key : string) (cause : error)
                                         (* "put lease to %s failed: %v" *)
| ErrCreateSession (cause : error)       (* "create session failed: %v" *)
| ErrServerNotReady                      (* "server is not ready" *)
| ErrPutStatus (cause : error)           (* "put status failed: %v" *)
| ErrNotFound (key : string).            (* "%s not found" *)

Inductive panic :=
| NilDereference               (* invalid memory address or nil pointer *)
| CloseOfClosedChannel         (* close of closed channel *)
| PanicMsg (msg : string).     (* panic("...") *)

Inductive result (A : Type) :=
| Ok (a : A)
| Err (e : error)
| Panicked (p : panic).
Arguments Ok {A} a.
Arguments Err {A} e.
Arguments Panicked {A} p.

(* ===================================================================== *)
(** ** The monad of methods *)

(** A method maps the world to its result, the world it leaves, and the
    events it emitted, oldest first. *)
Definition Go (A : Type) : Type := world -> result A * world * list event.

Definition go_ret {A} (a : A) : Go A := fun w => (Ok a, w, []).

(** Sequencing; it is also [if err != nil { return err }]: an error or a
    panic of the first part ends the method with the world as it is. *)
Definition go_bind {A B} (k : A -> Go B) (m : Go A) : Go B := fun w =>
  match m w with
  | (Ok a, w1, t1) => let '(r, w2, t2) := k a w1 in (r, w2, t1 ++ t2)
  | (Err e, w1, t1) => (Err e, w1, t1)
  | (Panicked p, w1, t1) => (Panicked p, w1, t1)
  end.

#[export] Instance Go_ret : MRet Go := @go_ret.
#[export] Instance Go_bind : MBind Go := @go_bind.

Definition throw {A} (e : error) : Go A := fun w => (Err e, w, []).
Definition go_panic {A} (p : panic) : Go A := fun w => (Panicked p, w, []).

(** [v, err := m] without an immediate return: the error becomes a value. *)
Definition try {A} (m : Go A) : Go (error + A) := fun w =>
  match m w with
  | (Ok a, w1, t) => (Ok (inr a), w1, t)
  | (Err e, w1, t) => (Ok (inl e), w1, t)
  | (Panicked p, w1, t) => (Panicked p, w1, t)
  end.

(** [fmt.Errorf] around the error of [m]. *)
Definition wrap_err {A} (f : error -> error) (m : Go A) : Go A := fun w =>
  match m w with
  | (Err e, w1, t) => (Err (f e), w1, t)
  | other => other
  end.

Definition emit (ev : event) : Go unit := fun w => (Ok tt, w, [ev]).
Definition logf (lv : level) (msg : string) : Go unit := emit (Log lv msg).

Definition this : Go cluster := fun w => (Ok (node w), w, []).
Definition update (f : cluster -> cluster) : Go unit := fun w =>
  (Ok tt, {| node := f (node w); env := env w |}, []).

Definition result_of {A} (o : result A * world * list event) : result A :=
  o.1.1.
Definition world_of {A} (o : result A * world * list event) : world := o.1.2.
Definition trace_of {A} (o : result A * world * list event) : list event :=
  o.2.

Definition set_server (v : option handle) (c : cluster) : cluster :=
  {| opt := opt c; layout := layout c; cmembers := cmembers c;
     server := v; client := client c; lease := lease c;
     session := session c; done := done c |}.
Definition set_client (v : option handle) (c : cluster) : cluster :=
  {| opt := opt c; layout := layout c; cmembers := cmembers c;
     server := server c; client := v; lease := lease c;
     session := session c; done := done c |}.
Definition set_lease (v : option LeaseID) (c : cluster) : cluster :=
  {| opt := opt c; layout := layout c; cmembers := cmembers c;
     server := server c; client := client c; lease := v;
     session := session c; done := done c |}.
Definition set_session (v : option handle) (c : cluster) : cluster :=
  {| opt := opt c; layout := layout c; cmembers := cmembers c;
     server := server c; client := client c; lease := lease c;
     session := v; done := done c |}.
Definition set_done (v : bool) (c : cluster) : cluster :=
  {| opt := opt c; layout := layout c; cmembers := cmembers c;
     server := server c; client := client c; lease := lease c;
     session := session c; done := v |}.
Definition set_cmembers (v : members) (c : cluster) : cluster :=
  {| opt := opt c; layout := layout c; cmembers := v;
     server := server c; client := client c; lease := lease c;
     session := session c; done := done c |}.

(* ===================================================================== *)
(** ** Outgoing calls *)

Definition with_kv (m : gmap string (string * LeaseID)) (e : etcd) : etcd :=
  {| kv := m; member_list := member_list e; ready := ready e;
     closed := closed e; fresh := fresh e; clock := clock e;
     fails := fails e; lease_ids := lease_ids e;
     member_ids := member_ids e; status_doc := status_doc e |}.
Definition with_member_list (l : list pb.Member) (e : etcd) : etcd :=
  {| kv := kv e; member_list := l; ready := ready e;
     closed := closed e; fresh := fresh e; clock := clock e;
     fails := fails e; lease_ids := lease_ids e;
     member_ids := member_ids e; status_doc := status_doc e |}.
Definition with_ready (s : gset handle) (e : etcd) : etcd :=
  {| kv := kv e; member_list := member_list e; ready := s;
     closed := closed e; fresh := fresh e; clock := clock e;
     fails := fails e; lease_ids := lease_ids e;
     member_ids := member_ids e; status_doc := status_doc e |}.
Definition with_closed (s : gset handle) (e : etcd) : etcd :=
  {| kv := kv e; member_list := member_list e; ready := ready e;
     closed := s; fresh := fresh e; clock := clock e;
     fails := fails e; lease_ids := lease_ids e;
     member_ids := member_ids e; status_doc := status_doc e |}.
Definition with_fresh (h : handle) (e : etcd) : etcd :=
  {| kv := kv e; member_list := member_list e; ready := ready e;
     closed := closed e; fresh := h; clock := clock e;
     fails := fails e; lease_ids := lease_ids e;
     member_ids := member_ids e; status_doc := status_doc e |}.
Definition with_clock (n : nat) (e : etcd) : etcd :=
  {| kv := kv e; member_list := member_list e; ready := ready e;
     closed := closed e; fresh := fresh e; clock := n;
     fails := fails e; lease_ids := lease_ids e;
     member_ids := member_ids e; status_doc := status_doc e |}.

(** A call that can return an error: whether it does is the store's
    choice, [fails]; when it does not, [serve] gives the reply and the
    effect on the store. *)
Definition call {A} (r : rpc) (serve : etcd -> A * etcd) : Go A := fun w =>
  let e := env w in
  if fails e (clock e) r then
    (Err (ErrCall r),
     {| node := node w; env := with_clock (S (clock e)) e |},
     [Call r false])
  else
    let '(a, e') := serve e in
    (Ok a,
     {| node := node w; env := with_clock (S (clock e)) e' |},
     [Call r true]).

(** A call with no error result. *)
Definition act (r : rpc) (effect : etcd -> etcd) : Go unit := fun w =>
  let e := env w in
  (Ok tt,
   {| node := node w; env := with_clock (S (clock e)) (effect e) |},
   [Call r true]).

Definition alloc (e : etcd) : handle * etcd :=
  (fresh e, with_fresh (S (fresh e)) e).

Definition close_handle (h : handle) (e : etcd) : etcd :=
  with_closed ({[h]} ∪ closed e) e.

Definition clientv3_New (endpoints : list string) : Go handle :=
  call (NewClient endpoints) alloc.

Definition client_Close (cli : handle) : Go unit :=
  call (ClientClose cli) (fun e => (tt, close_handle cli e)).

Definition client_Get (key : string) : Go (option string) :=
  call (KvGet key) (fun e => (fst <$> kv e !! key, e)).

Definition client_Put (key val : string) (l : LeaseID) : Go unit :=
  call (KvPut key val l) (fun e => (tt, with_kv (<[key := (val, l)]> (kv e)) e)).

Definition Lease_Grant (ttl : Z) : Go LeaseID :=
  call (LeaseGrant ttl) (fun e => (lease_ids e (clock e), e)).

(** Revoking a lease deletes every key attached to it. *)
Definition Lease_Revoke (l : LeaseID) : Go unit :=
  call (LeaseRevoke l)
       (fun e => (tt, with_kv (filter (fun p => p.2.2 ≠ l) (kv e)) e)).

Definition client_MemberList : Go (list pb.Member) :=
  call MemberList (fun e => (member_list e, e)).

Definition client_MemberAdd (peerURLs : list string) : Go (list pb.Member) :=
  call (MemberAdd peerURLs)
       (fun e =>
          let m := {| pb.ID := member_ids e (clock e); pb.Name := "";
                      pb.PeerURLs := peerURLs |} in
          let l := member_list e ++ [m] in
          (l, with_member_list l e)).

Definition client_MemberRemove (id : Z) : Go unit :=
  call (MemberRemove id)
       (fun e =>
          (tt, with_member_list
                 (List.filter (fun m => negb (pb.ID m =? id)) (member_list e))
                 e)).

(** [client.Defragment] on the pointer [getClient] returned: the method is
    promoted from a field of [*client], so a nil pointer is dereferenced
    before any request is made. *)
Definition client_Defragment (cli : option handle) (endpoint : string)
  : Go unit :=
  match cli with
  | None => go_panic NilDereference
  | Some _ => call (Defragment endpoint) (fun e => (tt, e))
  end.

Definition concurrency_NewSession (cli : handle) (l : LeaseID) : Go handle :=
  call (NewSession cli l) alloc.

Definition session_Close (s : handle) : Go unit :=
  call (SessionClose s) (fun e => (tt, close_handle s e)).

(** Modelled from the spec: [Get] and [PutUnderLease] of the cluster (their
    source file is not part of this development) are the read and the
    write-under-lease accessors over the store's linearizable get and put;
    the write requires the cached lease and attaches the key to it. *)
Definition Get (key : string) : Go (option string) := client_Get key.

Definition getLease : Go LeaseID :=
  c ← this;
  match lease c with
  | None => throw ErrLeaseNotReady
  | Some l => mret l
  end.

Definition PutUnderLease (key val : string) : Go unit :=
  l ← getLease;
  client_Put key val l.

(* ===================================================================== *)
(** ** The resource lifecycle *)

Definition getClient : Go handle :=
  c ← this;
  match client c with
  | Some cli => mret cli
  | None =>
      (* DCL *)
      c ← this;
      match client c with
      | Some cli => mret cli
      | None =>
          let endpoints :=
            if ForceNewCluster (opt c) then [PeerURL (self (cmembers c))]
            else knownPeerURLs (cmembers c) in
          logf Info "client connect with endpoints: %v";;
          cli ← wrap_err ErrCreateClient (clientv3_New endpoints);
          logf Info "client is ready";;
          update (set_client (Some cli));;
          mret cli
      end
  end.

Definition closeClient : Go unit :=
  c ← this;
  match client c with
  | None => mret tt
  | Some cli =>
      r ← try (client_Close cli);
      (match r with
       | inl _ => logf Error "close client failed: %v"
       | inr _ => mret tt
       end);;
      update (set_client None)
  end.

Definition initLease : Go unit :=
  r ← try getLease;
  match r with
  | inr _ => mret tt
  | inl _ =>
      c ← this;
      leaseStr ← Get (Lease (layout c));
      match leaseStr with
      | Some s =>
          match strTolease s with
          | inl err =>
              logf Error "BUG: parse lease %s failed: %v";;
              throw (ErrParseLease err)
          | inr l =>
              update (set_lease (Some l));;
              logf Info "lease is ready"
          end
      | None =>
          _ ← getClient;
          l ← Lease_Grant leaseTTL;
          (* NOTE: In case of deadlock with calling PutUnderLease below. *)
          update (set_lease (Some l));;
          logf Info "lease is ready";;
          wrap_err (ErrPutLease (Lease (layout c)))
                   (PutUnderLease (Lease (layout c)) (fmt.Sprintf_x l))
      end
  end.

Definition getSession : Go handle :=
  c ← this;
  match session c with
  | Some s => mret s
  | None =>
      (* DCL *)
      c ← this;
      match session c with
      | Some s => mret s
      | None =>
          cli ← getClient;
          l ← getLease;
          s ← wrap_err ErrCreateSession (concurrency_NewSession cli l);
          logf Info "session is ready";;
          mret s
      end
  end.

Definition closeSession : Go unit :=
  c ← this;
  match session c with
  | None => mret tt
  | Some s =>
      r ← try (session_Close s);
      (match r with
       | inl _ => logf Error "close session failed: %v"
       | inr _ => mret tt
       end);;
      update (set_session None)
  end.

Definition getServer : Go handle :=
  c ← this;
  match server c with
  | None => throw ErrServerNotReady
  | Some s => mret s
  end.

(** [closeEtcdServer]: a graceful close when the server had become ready, a
    hard stop otherwise; then the client and peer listeners are closed. *)
Definition closeEtcdServer (s : handle) : Go unit :=
  w ← (fun w => (Ok w, w, []));
  (if bool_decide (s ∈ ready (env w))
   then act (ServerClose s) (close_handle s)
   else act (ServerHardStop s) (close_handle s);;
        logf Info "hard stop server");;
  act (ListenersClose s) id.

(** What [startServer] hands back: the [done] channel already closed, or
    the two open channels together with the server being started. *)
Inductive started := AlreadyDone | Starting (s : handle).

Definition startServer : Go started :=
  c ← this;
  match server c with
  | Some _ => mret AlreadyDone
  | None =>
      call PrepareEtcdConfig (fun e => (tt, e));;
      s ← call StartEtcd alloc;
      mret (Starting s)
  end.

(** The goroutine [startServer] leaves behind, by the case its [select]
    takes. *)
Inductive race := RaceShutdown | RaceReady | RaceTimeout.
Inductive signal := NoSignal | DoneClosed | TimeoutClosed.

(** [<-server.Server.ReadyNotify()] was received: the server is ready. *)
Definition ready_notified (s : handle) : Go unit := fun w =>
  (Ok tt,
   {| node := node w; env := with_ready ({[s]} ∪ ready (env w)) (env w) |},
   []).

Definition serverStarter (s : handle) (r : race) : Go signal :=
  match r with
  | RaceShutdown => mret NoSignal
  | RaceReady =>
      ready_notified s;;
      update (set_server (Some s));;
      (* go monitorServer(c.server) *)
      logf Info "server is ready";;
      mret DoneClosed
  | RaceTimeout =>
      closeEtcdServer s;;
      mret TimeoutClosed
  end.

(** [monitorServer], by the case its [select] takes: an error from the
    server, or the closed [done] channel.  The log line reads the name
    through [c.server]. *)
Inductive monitored := ServerErr | MonitorDone.

Definition monitorServer (s : handle) (m : monitored) : Go unit :=
  match m with
  | ServerErr =>
      c ← this;
      match server c with
      | None => go_panic NilDereference
      | Some _ =>
          logf Error "%s serve faield: %v";;
          closeEtcdServer s
      end
  | MonitorDone => mret tt
  end.

Definition closeServer : Go unit :=
  c ← this;
  match server c with
  | None => mret tt
  | Some s =>
      closeEtcdServer s;;
      update (set_server None)
  end.

(* ===================================================================== *)
(** ** Heartbeat, defragmentation, join, purge and shutdown *)

Definition syncStatus : Go unit :=
  c ← this;
  (if String.eqb (ClusterRole (opt c)) "writer"
   then
     s ← getServer;
     call (UnmarshalSelfStats s) (fun e => (tt, e))
   else mret tt);;
  buff ← call MarshalStatus (fun e => (status_doc e (clock e), e));
  wrap_err ErrPutStatus (PutUnderLease (StatusMemberKey (layout c)) buff).

Definition updateMembers : Go unit :=
  _ ← getClient;
  resp ← client_MemberList;
  c ← this;
  update (set_cmembers (updateClusterMembers resp (cmembers c))).

(** One pass through the timer case of the heartbeat's [select]. *)
Definition heartbeat_tick : Go unit :=
  r ← try syncStatus;
  (match r with
   | inl _ => logf Error "sync status failed: %v"
   | inr _ => mret tt
   end);;
  r ← try updateMembers;
  match r with
  | inl _ => logf Error "update members failed: %v"
  | inr _ => mret tt
  end.

(** Which case a blocking [select] of a loop takes: the timer, or the
    [done] channel (enabled only once it is closed). *)
Inductive wake := Timer | Shutdown.

(** How far a loop got on a finite schedule of wake-ups: it returned, or it
    is still blocked in its [select]. *)
Inductive loop := Returned | Blocked.

Fixpoint heartbeat (sched : list wake) : Go loop :=
  match sched with
  | [] => mret Blocked
  | Timer :: rest => heartbeat_tick;; heartbeat rest
  | Shutdown :: _ =>
      c ← this;
      if done c then mret Returned else mret Blocked
  end.

(** One pass through the timer case of [defrag]; the result is the new
    [defragInterval]. *)
Definition defrag_tick (defragInterval : Duration) : Go Duration :=
  r ← try getClient;
  defragInterval ←
    match r with
    | inl _ =>
        logf Error "defrag failed: get client failed: %v";;
        mret defragFailedInterval
    | inr _ => mret defragInterval
    end;
  let cli := match r with inl _ => None | inr cli => Some cli end in
  c ← this;
  (* NOTICE: It need longer time than normal ones. *)
  r ← try (client_Defragment cli (ClusterPeerURL (opt c)));
  match r with
  | inl _ =>
      logf Error "defrag failed: %v";;
      mret defragFailedInterval
  | inr _ =>
      logf Info "defrag successfully";;
      mret defragNormalInterval
  end.

Fixpoint defrag_loop (sched : list wake) (defragInterval : Duration)
  : Go (loop * Duration) :=
  match sched with
  | [] => mret (Blocked, defragInterval)
  | Timer :: rest =>
      i ← defrag_tick defragInterval;
      defrag_loop rest i
  | Shutdown :: _ =>
      c ← this;
      if done c then mret (Returned, defragInterval)
      else mret (Blocked, defragInterval)
  end.

Definition defrag (sched : list wake) : Go (loop * Duration) :=
  defrag_loop sched defragNormalInterval.

(** The loop of [addSelfToCluster] over the member list: [true] when this
    node is found, a panic on a conflicting entry. *)
Fixpoint find_self (me : member) (ms : list pb.Member) : Go bool :=
  match ms with
  | [] => mret false
  | m :: rest =>
      if String.eqb (Name me) (pb.Name m) && (ID me =? pb.ID m) then
        mret true
      else if String.eqb (Name me) (pb.Name m) && negb (ID me =? pb.ID m) then
        logf Error "conflict id, local name: %s, local id: %d, etcd name: %s, etcd id: %dcontact the admin to purge this node, clean and re-join it back.";;
        go_panic (PanicMsg "conflict etcd ids")
      else if (ID me =? pb.ID m) && negb (String.eqb (Name me) (pb.Name m)) then
        logf Error "conflict name, local name: %s, local id: %d, etcd name: %s, etcd id: %dcontact the admin to purge this node, clean and re-join it back.";;
        go_panic (PanicMsg "conflict etcd names")
      else find_self me rest
  end.

Definition addSelfToCluster : Go unit :=
  _ ← getClient;
  respList ← client_MemberList;
  c ← this;
  found ← find_self (self (cmembers c)) respList;
  if negb found then
    respAdd ← client_MemberAdd [ClusterPeerURL (opt c)];
    logf Info "add %s to member list";;
    c ← this;
    update (set_cmembers (updateClusterMembers respAdd (cmembers c)))
  else mret tt.

(** The id the loop of [PurgeMember] is left with: that of the last member
    of the list with the given name. *)
Definition find_id (memberName : string) (ms : list pb.Member) : option Z :=
  fold_left
    (fun id m => if String.eqb (pb.Name m) memberName then Some (pb.ID m)
                 else id)
    ms None.

Definition PurgeMember (memberName : string) : Go unit :=
  _ ← getClient;
  (* remove etcd member if there is it. *)
  respList ← client_MemberList;
  (match find_id memberName respList with
   | Some id => client_MemberRemove id
   | None => mret tt
   end);;
  (* remove all stuff under the lease of the member. *)
  c ← this;
  let leaseKey := OtherLease (layout c) memberName in
  leaseStr ← Get leaseKey;
  match leaseStr with
  | None => throw (ErrNotFound leaseKey)
  | Some s =>
      match strTolease s with
      | inl err => throw (ErrParseLease err)
      | inr l => Lease_Revoke l
      end
  end.

(** [close(c.done)]. *)
Definition close_done : Go unit :=
  c ← this;
  if done c then go_panic CloseOfClosedChannel
  else update (set_done true).

(** [defer wg.Done()] runs when the body is left, also by a panic. *)
Definition defer_ {A} (body : Go A) (ev : event) : Go A := fun w =>
  let '(r, w', t) := body w in (r, w', t ++ [ev]).

Definition Close : Go unit :=
  defer_ (close_done;; closeSession;; closeClient;; closeServer) WgDone.

(* ===================================================================== *)
(** ** Sequences of operations *)

(** The operations other goroutines and callers may run against the same
    [cluster], in some interleaving of whole operations. *)
Inductive op :=
| OpGetClient
| OpCloseClient
| OpGetLease
| OpInitLease
| OpGetSession
| OpCloseSession
| OpGetServer
| OpStartServer (r : race)
| OpCloseServer
| OpMonitorServer (s : handle) (m : monitored)
| OpHeartbeatTick
| OpDefragTick (defragInterval : Duration)
| OpAddSelfToCluster
| OpPurgeMember (memberName : string)
| OpClose.

Definition void {A} (m : Go A) : Go unit := m;; mret tt.

Definition run_op (o : op) : Go unit :=
  match o with
  | OpGetClient => void getClient
  | OpCloseClient => closeClient
  | OpGetLease => void getLease
  | OpInitLease => initLease
  | OpGetSession => void getSession
  | OpCloseSession => closeSession
  | OpGetServer => void getServer
  | OpStartServer r =>
      st ← startServer;
      match st with
      | AlreadyDone => mret tt
      | Starting s => void (serverStarter s r)
      end
  | OpCloseServer => closeServer
  | OpMonitorServer s m => monitorServer s m
  | OpHeartbeatTick => heartbeat_tick
  | OpDefragTick i => void (defrag_tick i)
  | OpAddSelfToCluster => addSelfToCluster
  | OpPurgeMember memberName => PurgeMember memberName
  | OpClose => Close
  end.

(** An error goes back to the caller of that operation and the next
    operation runs; a panic ends the process. *)
Fixpoint run_ops (ops : list op) : Go unit :=
  match ops with
  | [] => mret tt
  | o :: rest => try (run_op o);; run_ops rest
  end.

Definition closes_server (o : op) : bool :=
  match o with
  | OpCloseServer | OpClose => true
  | _ => false
  end.

(** How a listed member compares with the local identity in the loop of
    [addSelfToCluster]: the same name and id, or only one of the two. *)
Definition is_self (me : member) (m : pb.Member) : bool :=
  String.eqb (Name me) (pb.Name m) && (ID me =? pb.ID m).

Definition conflicts (me : member) (m : pb.Member) : bool :=
  (String.eqb (Name me) (pb.Name m) && negb (ID me =? pb.ID m))
  || ((ID me =? pb.ID m) && negb (String.eqb (Name me) (pb.Name m))).

(** The calls that change the store. *)
Definition store_mutation (ev : event) : bool :=
  match ev with
  | Call (KvPut _ _ _) _ | Call (LeaseGrant _) _ | Call (LeaseRevoke _) _
  | Call (MemberAdd _) _ | Call (MemberRemove _) _ => true
  | _ => false
  end.

Definition is_member_add (ev : event) : bool :=
  match ev with Call (MemberAdd _) _ => true | _ => false end.
Definition is_member_remove (ev : event) : bool :=
  match ev with Call (MemberRemove _) _ => true | _ => false end.
Definition is_lease_revoke (ev : event) : bool :=
  match ev with Call (LeaseRevoke _) _ => true | _ => false end.
Definition is_lease_grant (ev : event) : bool :=
  match ev with Call (LeaseGrant _) _ => true | _ => false end.
Definition is_new_session (ev : event) : bool :=
  match ev with Call (NewSession _ _) _ => true | _ => false end.
Definition is_defragment (ev : event) : bool :=
  match ev with Call (Defragment _) _ => true | _ => false end.
Definition is_failed_call (ev : event) : bool :=
  match ev with Call _ false => true | _ => false end.

(** No call of the run returned an error. *)
Definition all_calls_ok (t : list event) : Prop :=
  forallb (fun ev => negb (is_failed_call ev)) t = true.

Definition none_of (p : event -> bool) (t : list event) : Prop :=
  forallb (fun ev => negb (p ev)) t = true.

Definition count_of (p : event -> bool) (t : list event) : nat :=
  length (List.filter p t).

(* ===================================================================== *)
(** ** Predicates used in the statements *)

(** A method leaves a property of the world in place. *)
Definition frames {A} (P : world -> Prop) (m : Go A) : Prop :=
  forall w, P w -> P (world_of (m w)).

(** Whether the [done] channel is closed is changed by no method but
    [Close]. *)
Definition done_is (b : bool) (w : world) : Prop := done (node w) = b.

(** The line a tick logs for a step, if the step failed. *)
Definition logged {A} (r : result A) (msg : string) : list event :=
  match r with
  | Err _ => [Log Error msg]
  | _ => []
  end.

(** The server [s] is cached and has been stopped. *)
Definition stopped_and_cached (s : handle) (w : world) : Prop :=
  server (node w) = Some s /\ s ∈ closed (env w).

(* ===================================================================== *)
(** ** Sample worlds *)

Module Sample.

Definition opt0 : Options :=
  {| ClusterRole := "writer"; ForceNewCluster := false;
     ClusterPeerURL := "http://node1:2380" |}.

Definition layout0 : Layout :=
  {| Lease := "/leases/node1";
     StatusMemberKey := "/status/members/node1";
     OtherLease := fun name => String.append "/leases/" name |}.

Definition self0 : member :=
  {| Name := "node1"; ID := 1; PeerURL := "http://node1:2380" |}.

(** A freshly constructed cluster: nothing created yet. *)
Definition node0 : cluster :=
  {| opt := opt0; layout := layout0;
     cmembers := {| self := self0; known := [] |};
     server := None; client := None; lease := None; session := None;
     done := false |}.

(** A store in which the given calls fail and the member list is [ms]. *)
Definition store (ms : list pb.Member) (faulty : nat -> rpc -> bool) : etcd :=
  {| kv := ∅; member_list := ms; ready := ∅; closed := ∅;
     fresh := 1%nat; clock := 0%nat; fails := faulty;
     lease_ids := fun n => 8000 + Z.of_nat n;
     member_ids := fun n => 100 + Z.of_nat n;
     status_doc := fun _ => "options: {}" |}.

Definition healthy : nat -> rpc -> bool := fun _ _ => false.

Definition world0 : world := {| node := node0; env := store [] healthy |}.

(** The store cannot be reached: creating a client fails. *)
Definition unreachable : nat -> rpc -> bool :=
  fun _ r => match r with NewClient _ => true | _ => false end.

Definition world_unreachable : world :=
  {| node := node0; env := store [] unreachable |}.

(** Writes to the store fail, everything else works. *)
Definition read_only : nat -> rpc -> bool :=
  fun _ r => match r with KvPut _ _ _ => true | _ => false end.

Definition world_read_only : world :=
  {| node := node0; env := store [] read_only |}.

Definition node2 : pb.Member :=
  {| pb.ID := 2; pb.Name := "node2"; pb.PeerURLs := ["http://node2:2380"] |}.

(** [node2] is a member of the store but has no lease record. *)
Definition world_member_only : world :=
  {| node := node0; env := store [node2] healthy |}.

(** [node2] has a lease record but is not in the member list. *)
Definition world_lease_only : world :=
  {| node := node0;
     env := with_kv {["/leases/node2" := ("1f40", 8000)]} (store [] healthy) |}.

(** The store knows a member with this node's name under another id. *)
Definition impostor : pb.Member :=
  {| pb.ID := 7; pb.Name := "node1"; pb.PeerURLs := ["http://other:2380"] |}.

Definition world_conflict : world :=
  {| node := node0; env := store [node2; impostor] healthy |}.

(** The cluster with its client and lease ready, as after bootstrap. *)
Definition world_ready : world := world_of (initLease world0).

(** The embedded server is ready and cached. *)
Definition world_serving : world :=
  world_of (run_op (OpStartServer RaceReady) world0).

End Sample.

(* ===================================================================== *)
(** ** Bootstrap and the exported server controls *)

(** The errors [getReady] returns: the three it formats itself and the
    error of [getClient], which it passes on unchanged. *)
Inductive ready_error :=
| InitLeaseFailed (cause : error)     (* "init lease failed: %v" *)
| StartServerFailed (cause : error)   (* "start server failed: %v" *)
| StartServerTimeout                  (* "start server timeout" *)
| ClientFailed (cause : error).

(** How an attempt of [getReady] ends: with nil, with an error, or never,
    when the goroutine of [startServer] left at the shutdown signal and
    closed neither of the two channels the [select] waits on. *)
Inductive readiness := Ready | NotReady (e : ready_error) | Waiting.

(** [getReady]; [r] is the case the [select] of the goroutine started by
    [startServer] takes, should one be started. *)
Definition getReady (r : race) : Go readiness :=
  c ← this;
  if String.eqb (ClusterRole (opt c)) "reader" then
    rc ← try getClient;
    match rc with
    | inl err => mret (NotReady (ClientFailed err))
    | inr _ =>
        rl ← try initLease;
        match rl with
        | inl err => mret (NotReady (InitLeaseFailed err))
        | inr _ => mret Ready
        end
    end
  else
    (if negb (ForceNewCluster (opt c))
        && (1 <? knownMembersLen (cmembers c))%nat
     then
       rc ← try getClient;
       match rc with
       | inr _ =>
           ra ← try addSelfToCluster;
           match ra with
           | inl _ => logf Error "add self to cluster failed: %v"
           | inr _ => mret tt
           end
       | inl _ => mret tt
       end
     else mret tt);;
    rs ← try startServer;
    match rs with
    | inl err => mret (NotReady (StartServerFailed err))
    | inr st =>
        sig ← match st with
              | AlreadyDone => mret DoneClosed
              | Starting s => serverStarter s r
              end;
        match sig with
        | DoneClosed =>
            rc ← try getClient;
            match rc with
            | inl err => mret (NotReady (ClientFailed err))
            | inr _ =>
                rl ← try initLease;
                match rl with
                | inl err => mret (NotReady (InitLeaseFailed err))
                | inr _ => mret Ready
                end
            end
        | TimeoutClosed => mret (NotReady StartServerTimeout)
        | NoSignal => mret Waiting
        end
    end.

Definition retry_line : string :=
  "failed to start cluster, retry count: %d, err:  %v".

Definition too_many_line : string :=
  "[%s] failed to start etcd server too many times, contact the admin to check if other members online. 
start other members if they're not online.
if other members are online, try to purge this node, clean and re-join it back.".

(** How far the retry loop of [run] got on a finite list of attempts. *)
Inductive booted := Booted | Retrying | Stuck.

(** The retry loop of [run], from retry count [i]; one element of [races]
    per attempt.  The sleep between two attempts leaves no trace. *)
Fixpoint bootstrap (races : list race) (i : nat) : Go booted :=
  match races with
  | [] => mret Retrying
  | r :: rest =>
      o ← getReady r;
      match o with
      | Ready => mret Booted
      | Waiting => mret Stuck
      | NotReady _ =>
          logf Error retry_line;;
          (if (3 <? i)%nat then logf Error too_many_line else mret tt);;
          bootstrap rest (S i)
      end
  end.

(** [run].  The result says how far the bootstrap got and, once the cluster
    is ready, whether the defragmentation goroutine is started and how far
    the heartbeat loop got on its schedule. *)
Definition run (races : list race) (sched : list wake)
  : Go (booted * option (bool * loop)) :=
  logf Info "starting etcd cluster ...";;
  b ← bootstrap races 0%nat;
  match b with
  | Booted =>
      logf Info "cluster is ready";;
      c ← this;
      l ← heartbeat sched;
      mret (Booted, Some (String.eqb (ClusterRole (opt c)) "writer", l))
  | Retrying => mret (Retrying, None)
  | Stuck => mret (Stuck, None)
  end.

Definition CloseServer : Go unit := defer_ closeServer WgDone.

Definition StartServer : Go started := startServer.

(* ===================================================================== *)
(** ** Further predicates and sample worlds *)

(** A byte [ParseUint] accepts as a digit in base 16. *)
Definition is_hex_digit (c : ascii) : bool :=
  match strconv.digit_val (strconv.byte_of c) with
  | Some d => d <? 16
  | None => false
  end.

Fixpoint all_hex (s : string) : bool :=
  match s with
  | EmptyString => true
  | String c rest => is_hex_digit c && all_hex rest
  end.

(** The number a string of hexadecimal digits denotes, continuing from
    [n]; no bound applies here. *)
Fixpoint hex_value_from (s : string) (n : Z) : Z :=
  match s with
  | EmptyString => n
  | String c rest =>
      match strconv.digit_val (strconv.byte_of c) with
      | Some d => hex_value_from rest (n * 16 + d)
      | None => n
      end
  end.

Definition hex_value (s : string) : Z := hex_value_from s 0.

Definition closes_client (o : op) : bool :=
  match o with
  | OpCloseClient | OpClose => true
  | _ => false
  end.

(** A property of the [cluster] struct alone, as a property of the world. *)
Definition on_node (P : cluster -> Prop) (w : world) : Prop := P (node w).

Definition client_is (cli : handle) (w : world) : Prop :=
  client (node w) = Some cli.

Definition lease_is (l : LeaseID) (w : world) : Prop :=
  lease (node w) = Some l.

Definition session_nil (w : world) : Prop := session (node w) = None.

Definition is_new_client (ev : event) : bool :=
  match ev with Call (NewClient _) _ => true | _ => false end.
Definition is_kv_put (ev : event) : bool :=
  match ev with Call (KvPut _ _ _) _ => true | _ => false end.
Definition is_kv_get (ev : event) : bool :=
  match ev with Call (KvGet _) _ => true | _ => false end.
Definition is_start_etcd (ev : event) : bool :=
  match ev with Call StartEtcd _ => true | _ => false end.
Definition is_member_list (ev : event) : bool :=
  match ev with Call MemberList _ => true | _ => false end.
Definition is_call (ev : event) : bool :=
  match ev with Call _ _ => true | _ => false end.
Definition is_retry_line (ev : event) : bool :=
  match ev with
  | Log Error msg => String.eqb msg retry_line
  | _ => false
  end.
Definition is_too_many_line (ev : event) : bool :=
  match ev with
  | Log Error msg => String.eqb msg too_many_line
  | _ => false
  end.

(** The last two steps of both branches of [getReady]. *)
Definition client_then_lease : Go readiness :=
  rc ← try getClient;
  match rc with
  | inl err => mret (NotReady (ClientFailed err))
  | inr _ =>
      rl ← try initLease;
      match rl with
      | inl err => mret (NotReady (InitLeaseFailed err))
      | inr _ => mret Ready
      end
  end.

(** The opportunistic join at the head of the writer branch of
    [getReady]. *)
Definition join_if_known (c : cluster) : Go unit :=
  if negb (ForceNewCluster (opt c)) && (1 <? knownMembersLen (cmembers c))%nat
  then
    rc ← try getClient;
    match rc with
    | inr _ =>
        ra ← try addSelfToCluster;
        match ra with
        | inl _ => logf Error "add self to cluster failed: %v"
        | inr _ => mret tt
        end
    | inl _ => mret tt
    end
  else mret tt.

(** Every event a method emits satisfies [q]. *)
Definition emits {A} (q : event -> bool) (m : Go A) : Prop :=
  forall w, forallb q (trace_of (m w)) = true.

(** Neither of the two lines the retry loop of [run] logs. *)
Definition not_a_retry_report (ev : event) : bool :=
  negb (is_retry_line ev) && negb (is_too_many_line ev).

Definition starts_or_joins (ev : event) : bool :=
  is_start_etcd ev || is_member_list ev || is_member_add ev.

(** The timer wake-ups of a schedule before its first wake-up on the
    [done] channel. *)
Fixpoint timers_before_shutdown (sched : list wake) : nat :=
  match sched with
  | Timer :: rest => S (timers_before_shutdown rest)
  | _ => O
  end.

Module Scenario.

(** The lease key holds something that is not a lease id. *)
Definition world_corrupt : world :=
  {| node := Sample.node0;
     env := with_kv {["/leases/node1" := ("lease", 0)]}
              (Sample.store [] Sample.healthy) |}.

(** A node in the reader role. *)
Definition reader_node : cluster :=
  {| opt := {| ClusterRole := "reader"; ForceNewCluster := false;
               ClusterPeerURL := "http://node1:2380" |};
     layout := Sample.layout0;
     cmembers := {| self := Sample.self0; known := [] |};
     server := None; client := None; lease := None; session := None;
     done := false |}.

Definition world_reader : world :=
  {| node := reader_node; env := Sample.store [] Sample.healthy |}.

(** Defragmentation fails, everything else works. *)
Definition no_defrag : nat -> rpc -> bool :=
  fun _ r => match r with Defragment _ => true | _ => false end.

Definition world_no_defrag : world :=
  {| node := node (Sample.world_ready);
     env := with_clock 0 (Sample.store [] no_defrag) |}.

(** This node is already listed by the store. *)
Definition node1 : pb.Member :=
  {| pb.ID := 1; pb.Name := "node1"; pb.PeerURLs := ["http://node1:2380"] |}.

Definition world_listed : world :=
  {| node := Sample.node0;
     env := Sample.store [Sample.node2; node1] Sample.healthy |}.

(** Removing a member fails, everything else works; [node2] is listed and
    has a lease record. *)
Definition no_remove : nat -> rpc -> bool :=
  fun _ r => match r with MemberRemove _ => true | _ => false end.

Definition world_no_remove : world :=
  {| node := Sample.node0;
     env := with_kv {["/leases/node2" := ("1f40", 8000)]}
              (Sample.store [Sample.node2] no_remove) |}.

(** [node2] is listed and has a lease record. *)
Definition world_member_and_lease : world :=
  {| node := Sample.node0;
     env := with_kv {["/leases/node2" := ("1f40", 8000)]}
              (Sample.store [Sample.node2] Sample.healthy) |}.

(** A writer without its server. *)
Definition world_writer_no_server : world := Sample.world_ready.

(** A writer with its client, lease and server ready. *)
Definition world_serving_ready : world :=
  world_of (run_ops [OpStartServer RaceReady; OpInitLease] Sample.world0).

(** Nothing works: every call fails. *)
Definition broken : nat -> rpc -> bool := fun _ _ => true.

Definition world_broken : world :=
  {| node := Sample.node0; env := Sample.store [] broken |}.

End Scenario.

(* ===================================================================== *)
(** ** Round trip of the lease record *)

Section HexRoundTrip.

Import strconv fmt.

Lemma digit_val_ldigit (d : Z) :
  0 <= d < 16 -> digit_val (byte_of (ldigit d)) = Some d.
Proof.
  intros Hd.
  assert (Hcases : d = 0 \/ d = 1 \/ d = 2 \/ d = 3 \/ d = 4 \/ d = 5 \/
                   d = 6 \/ d = 7 \/ d = 8 \/ d = 9 \/ d = 10 \/ d = 11 \/
                   d = 12 \/ d = 13 \/ d = 14 \/ d = 15) by lia.
  repeat (destruct Hcases as [-> | Hcases]; [reflexivity |]).
  subst d. reflexivity.
Qed.

Lemma parse_loop_digit (d n : Z) (rest : string) :
  0 <= d < 16 -> 0 <= n < 2 ^ 60 ->
  parse_loop 16 (String (ldigit d) rest) n = parse_loop 16 rest (n * 16 + d).
Proof.
  intros Hd Hn. cbn [parse_loop]. rewrite digit_val_ldigit by assumption.
  assert (H16 : (16 <=? d) = false) by (apply Z.leb_gt; lia).
  rewrite H16.
  assert (Hcut : (maxUint64 / 16 + 1 <=? n) = false).
  { apply Z.leb_gt. change (maxUint64 / 16 + 1) with (2 ^ 60). lia. }
  rewrite Hcut. cbv zeta.
  assert (Hsmall : 0 <= n * 16 + d < 2 ^ 64).
  { change (2 ^ 64) with (2 ^ 60 * 16). nia. }
  rewrite (Z.mod_small _ _ Hsmall).
  assert (Hlt : (n * 16 + d <? n * 16) = false) by (apply Z.ltb_ge; lia).
  assert (Hmax : (maxUint64 <? n * 16 + d) = false).
  { apply Z.ltb_ge. unfold maxUint64. lia. }
  rewrite Hlt, Hmax. reflexivity.
Qed.

(** Parsing what the digit loop printed continues from the printed value. *)
Lemma parse_hex_loop (fuel : nat) :
  forall (u : Z) (acc : string),
    0 <= u < 16 ^ Z.of_nat fuel -> u < 2 ^ 64 ->
    parse_loop 16 (hex_loop fuel u acc) 0 = parse_loop 16 acc u.
Proof.
  induction fuel as [| fuel IH]; intros u acc Hu H64.
  - change (16 ^ Z.of_nat 0) with 1 in Hu. assert (u = 0) by lia. subst u.
    reflexivity.
  - cbn [hex_loop]. destruct (u <? 16) eqn:Hlt.
    + apply Z.ltb_lt in Hlt. rewrite parse_loop_digit by lia.
      f_equal.
    + apply Z.ltb_ge in Hlt.
      rewrite Z.shiftr_div_pow2 by lia.
      change 15 with (Z.ones 4). rewrite Z.land_ones by lia.
      change (2 ^ 4) with 16.
      assert (Hpow : 16 ^ Z.of_nat (S fuel) = 16 * 16 ^ Z.of_nat fuel).
      { rewrite Nat2Z.inj_succ, Z.pow_succ_r by lia. reflexivity. }
      assert (Hq : 0 <= u / 16 < 16 ^ Z.of_nat fuel).
      { split; [apply Z.div_pos; lia |].
        apply Z.div_lt_upper_bound; lia. }
      assert (Hq60 : u / 16 < 2 ^ 60).
      { apply Z.div_lt_upper_bound; [lia |].
        change (16 * 2 ^ 60) with (2 ^ 64). lia. }
      rewrite IH by lia.
      pose proof (Z.mod_pos_bound u 16 ltac:(lia)) as Hr.
      rewrite parse_loop_digit by lia.
      f_equal. pose proof (Z.div_mod u 16). lia.
Qed.

Lemma hex_loop_nonempty (fuel : nat) (u : Z) (acc : string) :
  hex_loop (S fuel) u acc <> EmptyString.
Proof.
  revert u acc. induction fuel as [| fuel IH]; intros u acc.
  - cbn [hex_loop]. destruct (u <? 16); discriminate.
  - change (hex_loop (S (S fuel)) u acc)
      with (if u <? 16 then String (ldigit u) acc
            else hex_loop (S fuel) (Z.shiftr u 4)
                   (String (ldigit (Z.land u 15)) acc)).
    destruct (u <? 16); [discriminate | apply IH].
Qed.

Lemma ldigit_not_sign (d : Z) :
  Ascii.eqb (ldigit d) "+" = false /\ Ascii.eqb (ldigit d) "-" = false.
Proof.
  unfold ldigit.
  repeat match goal with
         | |- context [match ?x with _ => _ end] => destruct x
         end; split; reflexivity.
Qed.

Lemma hex_loop_head (fuel : nat) :
  forall (u : Z) (acc : string),
    exists d rest, hex_loop (S fuel) u acc = String (ldigit d) rest.
Proof.
  induction fuel as [| fuel IH]; intros u acc.
  - cbn [hex_loop]. destruct (u <? 16); eauto.
  - change (hex_loop (S (S fuel)) u acc)
      with (if u <? 16 then String (ldigit u) acc
            else hex_loop (S fuel) (Z.shiftr u 4)
                   (String (ldigit (Z.land u 15)) acc)).
    destruct (u <? 16); [eauto | apply IH].
Qed.

(** [ParseUint] reads back the digits printed for a [uint64]. *)
Lemma ParseUint_hex_loop (u : Z) :
  0 <= u < 2 ^ 64 -> ParseUint (hex_loop 16 u EmptyString) 16 = (u, None).
Proof.
  intros Hu. unfold ParseUint.
  destruct (hex_loop_head 15 u EmptyString) as (d & rest & Hhead).
  rewrite parse_hex_loop by (change (16 ^ Z.of_nat 16) with (2 ^ 64); lia).
  rewrite Hhead. reflexivity.
Qed.

(** Parsing the printed lease record gives the lease back. *)
Lemma strTolease_Sprintf_x (v : LeaseID) :
  is_int64 v -> strTolease (Sprintf_x v) = inr v.
Proof.
  unfold is_int64, minInt64, maxInt64. intros Hv.
  unfold strTolease, Sprintf_x. destruct (v <? 0) eqn:Hneg.
  - apply Z.ltb_lt in Hneg.
    assert (Hu : to_uint64 (- to_uint64 v) = - v).
    { unfold to_uint64.
      replace (v mod 2 ^ 64) with (v + 2 ^ 64)
        by (apply Z.mod_unique with (q := -1); lia).
      symmetry. apply Z.mod_unique with (q := -1); lia. }
    rewrite Hu. unfold ParseInt. change (Ascii.eqb "-" "+") with false.
    change (Ascii.eqb "-" "-") with true. cbv iota.
    rewrite ParseUint_hex_loop by lia. cbv zeta.
    change (negb true) with false. cbn [andb].
    assert (Hcut : (2 ^ 63 <? - v) = false) by (apply Z.ltb_ge; lia).
    rewrite Hcut. f_equal. unfold to_int64.
    rewrite (Z.mod_small (- v)) by lia.
    destruct (- v <? 2 ^ 63) eqn:Hlt.
    + apply Z.ltb_lt in Hlt.
      replace (- - v) with v by lia.
      replace (v mod 2 ^ 64) with (v + 2 ^ 64)
        by (apply Z.mod_unique with (q := -1); lia).
      assert (Hge : (v + 2 ^ 64 <? 2 ^ 63) = false) by (apply Z.ltb_ge; lia).
      rewrite Hge. lia.
    + apply Z.ltb_ge in Hlt. assert (v = - 2 ^ 63) by lia. subst v.
      reflexivity.
  - apply Z.ltb_ge in Hneg.
    assert (Hu : to_uint64 v = v) by (apply Z.mod_small; lia).
    rewrite Hu. unfold ParseInt.
    destruct (hex_loop_head 15 v EmptyString) as (d & rest & Hhead).
    destruct (ldigit_not_sign d) as [Hplus Hminus].
    pose proof (ParseUint_hex_loop v ltac:(lia)) as Hparse.
    rewrite Hhead in Hparse |- *. rewrite Hplus, Hminus, Hparse.
    cbv zeta. change (negb false) with true. cbn [andb].
    assert (Hcut : (2 ^ 63 <=? v) = false) by (apply Z.leb_gt; lia).
    rewrite Hcut. f_equal. unfold to_int64.
    rewrite Z.mod_small by lia.
    assert (Hlt : (v <? 2 ^ 63) = true) by (apply Z.ltb_lt; lia).
    rewrite Hlt. reflexivity.
Qed.

End HexRoundTrip.

Example Sprintf_x_255 : fmt.Sprintf_x 255 = "ff"%string.
Proof. reflexivity. Qed.

Example Sprintf_x_neg : fmt.Sprintf_x (-26) = "-1a"%string.
Proof. reflexivity. Qed.

Example strTolease_upper : strTolease "1F" = inr 31.
Proof. reflexivity. Qed.

Example strTolease_corrupt : strTolease "lease" = inl strconv.ErrSyntax.
Proof. reflexivity. Qed.

Example strTolease_overflow :
  strTolease "8000000000000000" = inl strconv.ErrRange.
Proof. reflexivity. Qed.


(* ===================================================================== *)
(** ** Reasoning about methods *)

Ltac go_unfold :=
  unfold mbind, mret, Go_bind, Go_ret, go_bind, go_ret, try, wrap_err,
    throw, go_panic, emit, logf, this, update, call, act, defer_, void,
    ready_notified, result_of, world_of, trace_of in *.

(** Split on whatever the next step of the method inspects. *)
Ltac go_case :=
  match goal with
  | |- context [match ?x with _ => _ end] =>
      lazymatch x with
      | context [match _ with _ => _ end] => fail
      | _ => destruct x eqn:?
      end
  | |- context [if ?x then _ else _] =>
      lazymatch x with
      | context [if _ then _ else _] => fail
      | _ => destruct x eqn:?
      end
  end.

Ltac go_cases := repeat (go_case; cbn in *).

Section Lifecycle.

Lemma getLease_spec (w : world) :
  getLease w =
    match lease (node w) with
    | None => (Err ErrLeaseNotReady, w, [])
    | Some l => (Ok l, w, [])
    end.
Proof. unfold getLease. go_unfold. cbn. destruct (lease (node w)); reflexivity. Qed.

Lemma getServer_spec (w : world) :
  getServer w =
    match server (node w) with
    | None => (Err ErrServerNotReady, w, [])
    | Some s => (Ok s, w, [])
    end.
Proof. unfold getServer. go_unfold. cbn. destruct (server (node w)); reflexivity. Qed.

(** With a cached client, [getClient] is a read. *)
Lemma getClient_cached (w : world) (cli : handle) :
  client (node w) = Some cli -> getClient w = (Ok cli, w, []).
Proof. intros H. unfold getClient. go_unfold. cbn. rewrite H. reflexivity. Qed.

(** [getClient] either fails, leaving the cluster as it is, or leaves the
    client it returns in the cache. *)
Lemma getClient_result (w : world) :
  match result_of (getClient w) with
  | Ok cli => client (node (world_of (getClient w))) = Some cli
  | Err e => node (world_of (getClient w)) = node w /\
             exists cause, e = ErrCreateClient cause
  | Panicked _ => False
  end.
Proof.
  unfold getClient, clientv3_New, alloc. go_unfold. cbn.
  go_cases; try solve [eauto | discriminate | congruence].
Qed.

(** [getSession] never assigns [c.session]. *)
Lemma getSession_leaves_session (w : world) :
  session (node (world_of (getSession w))) = session (node w).
Proof.
  unfold getSession, getClient, getLease, concurrency_NewSession,
    clientv3_New, alloc.
  go_unfold. cbn. go_cases; congruence.
Qed.

End Lifecycle.

(* ===================================================================== *)
(** ** The session is built again on every call *)

(** After a successful [getSession] on a cluster without a session the
    field is still nil, so the next successful call passes both checks
    again, builds another session and returns a different handle. *)
Lemma getSession_builds_again (w : world) (s : handle) :
  session (node w) = None ->
  result_of (getSession w) = Ok s ->
  let w1 := world_of (getSession w) in
  session (node w1) = None /\
  forall s2, result_of (getSession w1) = Ok s2 ->
             s2 <> s /\
             count_of is_new_session (trace_of (getSession w1)) = 1%nat.
Proof.
  intros Hnone Hok w1. split.
  - subst w1. rewrite getSession_leaves_session. exact Hnone.
  - subst w1. revert Hok.
    unfold getSession, getClient, getLease, concurrency_NewSession,
      clientv3_New, alloc.
    go_unfold. cbn. rewrite Hnone. cbn.
    go_cases; intros; simplify_eq; cbn in *; simplify_eq;
      (split; [lia | reflexivity]).
Qed.

(** C1 (code defect).  The claim says a successful [getSession] caches the
    session, so that a later call returns the same instance without a
    second construction.  On a cluster whose client and lease are ready,
    two successive calls each construct a session: the handles differ, two
    [NewSession] calls are issued, and the field is nil after both. *)
Theorem getSession_twice_constructs_twice :
  let first := getSession Sample.world_ready in
  let second := getSession (world_of first) in
  result_of first = Ok 2%nat /\
  result_of second = Ok 3%nat /\
  session (node (world_of first)) = None /\
  session (node (world_of second)) = None /\
  count_of is_new_session (trace_of first ++ trace_of second) = 2%nat.
Proof. vm_compute. repeat split. Qed.

(* ===================================================================== *)
(** ** A defragmentation tick without a client *)

(** When [getClient] fails the tick goes on to [client.Defragment] with the
    nil client. *)
Lemma defrag_tick_getClient_fails (w : world) (i : Duration) (e : error) :
  result_of (getClient w) = Err e ->
  result_of (defrag_tick i w) = Panicked NilDereference /\
  none_of is_defragment (trace_of (defrag_tick i w)).
Proof.
  unfold defrag_tick, client_Defragment, getClient, clientv3_New, alloc,
    none_of.
  go_unfold. cbn. go_cases; intros; simplify_eq; split; reflexivity.
Qed.

(** C2 (code defect).  The claim says a tick whose connection acquisition
    fails switches to the failed interval and retries after it, touching
    nothing on the absent client.  With the store unreachable the tick
    logs the failure and then dereferences the nil client: it panics, and
    so does the loop, instead of reaching its next wake-up. *)
Theorem defrag_tick_unreachable_panics :
  let w := Sample.world_unreachable in
  result_of (getClient w) = Err (ErrCreateClient (ErrCall (NewClient []))) /\
  result_of (defrag_tick defragNormalInterval w) = Panicked NilDereference /\
  trace_of (defrag_tick defragNormalInterval w) =
    [Log Info "client connect with endpoints: %v";
     Call (NewClient []) false;
     Log Error "defrag failed: get client failed: %v"] /\
  result_of (defrag [Timer; Timer; Shutdown] w) = Panicked NilDereference.
Proof. vm_compute. repeat split. Qed.

(* ===================================================================== *)
(** ** Member purge *)

Lemma find_id_acc (memberName : string) (ms : list pb.Member) :
  forall acc : option Z,
    fold_left
      (fun id m => if String.eqb (pb.Name m) memberName then Some (pb.ID m)
                   else id) ms acc
    = match find_id memberName ms with
      | Some id => Some id
      | None => acc
      end.
Proof.
  unfold find_id. induction ms as [| m ms IH] using rev_ind; intros acc.
  - reflexivity.
  - rewrite !fold_left_app. cbn.
    destruct (String.eqb (pb.Name m) memberName); [reflexivity |].
    rewrite IH. reflexivity.
Qed.

(** [find_id] is [None] exactly when no member of the list has the name. *)
Lemma find_id_None (memberName : string) (ms : list pb.Member) :
  find_id memberName ms = None <->
  Forall (fun m => pb.Name m <> memberName) ms.
Proof.
  induction ms as [| m ms IH].
  - split; [constructor | reflexivity].
  - unfold find_id in *. cbn. rewrite find_id_acc. unfold find_id.
    destruct (String.eqb (pb.Name m) memberName) eqn:Heq.
    + apply String.eqb_eq in Heq. split.
      * destruct (fold_left _ ms None); discriminate.
      * intros HF. inversion HF; subst. congruence.
    + apply String.eqb_neq in Heq. split.
      * intros H. constructor; [assumption |]. apply IH.
        destruct (fold_left _ ms None); [discriminate | reflexivity].
      * intros HF. inversion HF; subst.
        match goal with H : Forall _ ms |- _ => apply IH in H; rewrite H end.
        reflexivity.
Qed.

(** The id [find_id] returns belongs to a listed member with the name. *)
Lemma find_id_Some (memberName : string) (ms : list pb.Member) (id : Z) :
  find_id memberName ms = Some id ->
  exists m, In m ms /\ pb.Name m = memberName /\ pb.ID m = id.
Proof.
  induction ms as [| m ms IH] using rev_ind.
  - discriminate.
  - unfold find_id in *. rewrite fold_left_app. cbn.
    destruct (String.eqb (pb.Name m) memberName) eqn:Heq.
    + intros [= <-]. apply String.eqb_eq in Heq. exists m.
      rewrite in_app_iff. cbn. auto.
    + intros H. destruct (IH H) as (m' & Hin & Hname & Hid).
      exists m'. rewrite in_app_iff. auto.
Qed.

#[local] Arguments find_id : simpl never.

Ltac purge_unfold :=
  unfold PurgeMember, Get, client_Get, client_MemberList, client_MemberRemove,
    Lease_Revoke, getClient, clientv3_New, alloc, none_of, all_calls_ok,
    count_of;
  go_unfold; cbn.

(** C3 (counterexample).  [node2] is in the store's member list and has no
    lease record: the purge returns the not-found error, but only after the
    member-remove has been issued. *)
Lemma PurgeMember_absent_lease_mutates :
  ~ (kv (env Sample.world_member_only)
       !! OtherLease (layout (node Sample.world_member_only)) "node2" = None ->
     result_of (PurgeMember "node2" Sample.world_member_only)
       = Err (ErrNotFound "/leases/node2") /\
     none_of store_mutation
       (trace_of (PurgeMember "node2" Sample.world_member_only))).
Proof.
  intros H. destruct H as [_ H]; [reflexivity |].
  vm_compute in H. discriminate.
Qed.

(** C3 (amended).  For a member name whose lease key is absent, the purge
    never revokes a lease and never succeeds; it returns the not-found
    error whenever none of its calls fails.  A member-remove is issued only
    for the id of a listed member with that name, so for a name that is
    not in the member list either, nothing in the store is changed. *)
Theorem PurgeMember_absent_lease (w : world) (memberName : string) :
  kv (env w) !! OtherLease (layout (node w)) memberName = None ->
  let o := PurgeMember memberName w in
  none_of is_lease_revoke (trace_of o) /\
  (exists e, result_of o = Err e) /\
  (all_calls_ok (trace_of o) ->
   result_of o = Err (ErrNotFound (OtherLease (layout (node w)) memberName))) /\
  (forall id ok, In (Call (MemberRemove id) ok) (trace_of o) ->
                 find_id memberName (member_list (env w)) = Some id) /\
  (find_id memberName (member_list (env w)) = None ->
   none_of store_mutation (trace_of o) /\
   kv (env (world_of o)) = kv (env w) /\
   member_list (env (world_of o)) = member_list (env w)).
Proof.
  intros Hkv o. subst o. purge_unfold.
  destruct (find_id memberName (member_list (env w))) as [id |] eqn:Hid.
  all: go_cases; rewrite ?Hkv in *; cbn in *; simplify_eq.
  all: repeat split; eauto; try discriminate; try congruence.
  all: try (intros id' ok' Hin; cbn in Hin; intuition (simplify_eq; eauto)).
  all: try (intros; discriminate).
Qed.

(** C3 (amended), at [node2] of the member-only store. *)
Lemma PurgeMember_absent_lease_witness :
  kv (env Sample.world_member_only) !! "/leases/node2" = None /\
  exists e, result_of (PurgeMember "node2" Sample.world_member_only) = Err e.
Proof.
  assert (H : kv (env Sample.world_member_only)
                !! OtherLease (layout (node Sample.world_member_only)) "node2"
              = None) by reflexivity.
  split; [exact H |].
  exact (proj1 (proj2 (PurgeMember_absent_lease
                         Sample.world_member_only "node2" H))).
Defined.

(** C8.  For a member name with a persisted lease record and no entry in
    the store's member list, the purge issues no member-remove; when none
    of its calls fails it revokes the recorded lease, which deletes the
    keys attached to it, and returns success. *)
Theorem PurgeMember_without_membership
  (w : world) (memberName s : string) (l l0 : LeaseID) :
  Forall (fun m => pb.Name m <> memberName) (member_list (env w)) ->
  kv (env w) !! OtherLease (layout (node w)) memberName = Some (s, l0) ->
  strTolease s = inr l ->
  let o := PurgeMember memberName w in
  none_of is_member_remove (trace_of o) /\
  (all_calls_ok (trace_of o) ->
   result_of o = Ok tt /\
   In (Call (LeaseRevoke l) true) (trace_of o) /\
   kv (env (world_of o)) = filter (fun p => p.2.2 ≠ l) (kv (env w))).
Proof.
  intros Hnot Hkv Hparse o. subst o. apply find_id_None in Hnot.
  purge_unfold.
  repeat (first [rewrite Hnot | rewrite Hkv | rewrite Hparse | go_case];
          cbn in *).
  all: split; [reflexivity |]; intros Hok; try discriminate.
  all: repeat split; cbn; auto 10.
Qed.

Lemma PurgeMember_without_membership_witness :
  result_of (PurgeMember "node2" Sample.world_lease_only) = Ok tt /\
  In (Call (LeaseRevoke 8000) true)
     (trace_of (PurgeMember "node2" Sample.world_lease_only)).
Proof.
  pose proof (PurgeMember_without_membership
                Sample.world_lease_only "node2" "1f40" 8000 8000) as H.
  cbv zeta in H.
  destruct H as [_ H].
  - constructor.
  - reflexivity.
  - reflexivity.
  - destruct H as (Hres & Hin & _); [vm_compute; reflexivity |].
    split; [exact Hres | exact Hin].
Defined.

(* ===================================================================== *)
(** ** The join protocol *)

(** The three ways the loop over the member list ends: this node is found,
    the list has neither this node nor a conflicting entry, or the loop
    panics at a conflicting entry.  It never touches the cluster or the
    store. *)
Lemma find_self_cases (me : member) (ms : list pb.Member) (w : world) :
  (find_self me ms w = (Ok true, w, []) /\
   exists m, In m ms /\ is_self me m = true) \/
  (find_self me ms w = (Ok false, w, []) /\
   Forall (fun m => is_self me m = false /\ conflicts me m = false) ms) \/
  (exists msg line,
     find_self me ms w = (Panicked (PanicMsg msg), w, [Log Error line]) /\
     (msg = "conflict etcd ids" \/ msg = "conflict etcd names") /\
     exists m, In m ms /\ conflicts me m = true).
Proof.
  induction ms as [| m ms IH].
  - right. left. split; [reflexivity | constructor].
  - cbn [find_self]. unfold is_self, conflicts in *.
    destruct (String.eqb (Name me) (pb.Name m)) eqn:Hname;
      destruct (ID me =? pb.ID m) eqn:Hid; cbn [andb negb orb].
    + left. split; [reflexivity |]. exists m. cbn. rewrite Hname, Hid. auto.
    + right. right. do 2 eexists. split; [reflexivity |].
      split; [auto |]. exists m. cbn. rewrite Hname, Hid. auto.
    + right. right. do 2 eexists. split; [reflexivity |].
      split; [auto |]. exists m. cbn. rewrite Hname, Hid. auto.
    + destruct IH as [(Heq & m' & Hin & Hself) | [(Heq & HF) | IH]].
      * left. split; [exact Heq |]. exists m'. cbn. auto.
      * right. left. split; [exact Heq |]. constructor; [| exact HF].
        rewrite Hname, Hid. auto.
      * right. right.
        destruct IH as (msg & line & Heq & Hmsg & m' & Hin & Hc).
        exists msg, line. split; [exact Heq |]. split; [exact Hmsg |].
        exists m'. cbn. auto.
Qed.

Ltac join_unfold :=
  unfold addSelfToCluster, client_MemberList, client_MemberAdd, getClient,
    clientv3_New, alloc, none_of, all_calls_ok;
  go_unfold; cbn.

(** C4 (counterexample).  The store lists a member with this node's name
    under another id: the join protocol does not return an error to its
    caller, it panics. *)
Lemma addSelfToCluster_conflict_not_returned :
  ~ ((exists e, result_of (addSelfToCluster Sample.world_conflict) = Err e) /\
     none_of is_member_add (trace_of (addSelfToCluster Sample.world_conflict))).
Proof.
  intros [[e He] _]. vm_compute in He. discriminate.
Qed.

(** C4 (amended).  When some listed member has this node's name with a
    different id, or its id with a different name, the join protocol
    issues no member-add call.  If moreover its calls succeed, it panics
    ("conflict etcd ids" or "conflict etcd names") unless the list also
    holds this node itself ahead of the conflicting entry, in which case
    it returns without error; a panic is certain when no listed member is
    this node itself. *)
Theorem addSelfToCluster_conflict (w : world) (m : pb.Member) :
  In m (member_list (env w)) ->
  conflicts (self (cmembers (node w))) m = true ->
  let o := addSelfToCluster w in
  let me := self (cmembers (node w)) in
  none_of is_member_add (trace_of o) /\
  (all_calls_ok (trace_of o) ->
   result_of o = Panicked (PanicMsg "conflict etcd ids") \/
   result_of o = Panicked (PanicMsg "conflict etcd names") \/
   (result_of o = Ok tt /\
    exists m', In m' (member_list (env w)) /\ is_self me m' = true)) /\
  (all_calls_ok (trace_of o) ->
   Forall (fun m' => is_self me m' = false) (member_list (env w)) ->
   result_of o = Panicked (PanicMsg "conflict etcd ids") \/
   result_of o = Panicked (PanicMsg "conflict etcd names")).
Proof.
  intros Hin Hconf o me. subst o me.
  assert (Hcases := fun w' =>
            find_self_cases (self (cmembers (node w))) (member_list (env w)) w').
  join_unfold.
  repeat (first
            [ match goal with
              | |- context [find_self ?a ?b ?w'] =>
                  destruct (Hcases w')
                    as [(-> & m1 & Hin1 & Hself1)
                       | [(-> & HF) | (msg & line & -> & Hmsg & _)]]
              end
            | go_case ]; cbn in *).
  all: try (rewrite List.Forall_forall in HF; destruct (HF m Hin); congruence).
  all: split; [reflexivity |]; split; intros Hok; try discriminate.
  all: try (intros HF'; rewrite List.Forall_forall in HF';
            specialize (HF' m1 Hin1); congruence).
  all: try (right; right; split; [reflexivity |]; exists m1; auto; fail).
  all: try (intros _); destruct Hmsg as [-> | ->]; auto.
Qed.

Lemma addSelfToCluster_conflict_witness :
  none_of is_member_add (trace_of (addSelfToCluster Sample.world_conflict)) /\
  (result_of (addSelfToCluster Sample.world_conflict)
     = Panicked (PanicMsg "conflict etcd ids") \/
   result_of (addSelfToCluster Sample.world_conflict)
     = Panicked (PanicMsg "conflict etcd names")).
Proof.
  pose proof (addSelfToCluster_conflict Sample.world_conflict Sample.impostor)
    as H.
  cbv zeta in H. destruct H as (Hadd & _ & Hpanic).
  - cbn. auto.
  - reflexivity.
  - split; [exact Hadd |]. apply Hpanic.
    + vm_compute. reflexivity.
    + repeat constructor.
Defined.

(* ===================================================================== *)
(** ** Shutdown *)

(** Each of the three closes returns normally in every world, and does
    nothing when its resource is absent. *)
Lemma closeSession_safe (w : world) :
  result_of (closeSession w) = Ok tt /\
  session (node (world_of (closeSession w))) = None /\
  (session (node w) = None -> closeSession w = (Ok tt, w, [])).
Proof.
  unfold closeSession, session_Close. go_unfold. cbn.
  go_cases; repeat split; congruence.
Qed.

Lemma closeClient_safe (w : world) :
  result_of (closeClient w) = Ok tt /\
  client (node (world_of (closeClient w))) = None /\
  (client (node w) = None -> closeClient w = (Ok tt, w, [])).
Proof.
  unfold closeClient, client_Close. go_unfold. cbn.
  go_cases; repeat split; congruence.
Qed.

Lemma closeServer_safe (w : world) :
  result_of (closeServer w) = Ok tt /\
  server (node (world_of (closeServer w))) = None /\
  (server (node w) = None -> closeServer w = (Ok tt, w, [])).
Proof.
  unfold closeServer, closeEtcdServer. go_unfold. cbn.
  go_cases; repeat split; congruence.
Qed.

(** C5 (counterexample).  On a fresh cluster the first [Close] returns;
    the second does not: it panics on the channel the first one closed. *)
Lemma Close_twice_panics :
  ~ (result_of (Close Sample.world0) = Ok tt ->
     result_of (Close (world_of (Close Sample.world0))) = Ok tt).
Proof.
  intros H. specialize (H eq_refl). vm_compute in H. discriminate.
Qed.

(** A [Close] with the channel still open runs the three closes in turn. *)
Lemma Close_open_run (w : world) :
  done (node w) = false ->
  let w1 := {| node := set_done true (node w); env := env w |} in
  let w2 := world_of (closeSession w1) in
  let w3 := world_of (closeClient w2) in
  Close w =
    (Ok tt, world_of (closeServer w3),
     trace_of (closeSession w1) ++ trace_of (closeClient w2)
       ++ trace_of (closeServer w3) ++ [WgDone]).
Proof.
  intros Hopen. cbv zeta.
  unfold Close, close_done, defer_.
  unfold mbind, mret, Go_bind, Go_ret, go_bind, go_ret, this, update, go_panic.
  cbn -[closeSession closeClient closeServer]. rewrite Hopen.
  cbn -[closeSession closeClient closeServer].
  generalize ({| node := set_done true (node w); env := env w |}).
  intros w1.
  pose proof (proj1 (closeSession_safe w1)) as Hs.
  destruct (closeSession w1) as [[rs ws] ts].
  unfold result_of in Hs. cbn in Hs. subst rs.
  unfold world_of, trace_of. cbn [fst snd].
  pose proof (proj1 (closeClient_safe ws)) as Hc.
  destruct (closeClient ws) as [[rc wc] tc].
  unfold result_of in Hc. cbn in Hc. subst rc.
  cbn [fst snd].
  pose proof (proj1 (closeServer_safe wc)) as Hv.
  destruct (closeServer wc) as [[rv wv] tv].
  unfold result_of in Hv. cbn in Hv. subst rv.
  cbn [fst snd].
  rewrite <- !app_assoc. reflexivity.
Qed.

(** What the three closes leave alone. *)
Lemma closeSession_frame (w : world) :
  done (node (world_of (closeSession w))) = done (node w).
Proof.
  unfold closeSession, session_Close. go_unfold. cbn. go_cases; reflexivity.
Qed.

Lemma closeClient_frame (w : world) :
  session (node (world_of (closeClient w))) = session (node w) /\
  done (node (world_of (closeClient w))) = done (node w).
Proof.
  unfold closeClient, client_Close. go_unfold. cbn.
  go_cases; split; reflexivity.
Qed.

Lemma closeServer_frame (w : world) :
  session (node (world_of (closeServer w))) = session (node w) /\
  client (node (world_of (closeServer w))) = client (node w) /\
  done (node (world_of (closeServer w))) = done (node w).
Proof.
  unfold closeServer, closeEtcdServer. go_unfold. cbn.
  go_cases; repeat split; reflexivity.
Qed.

(** C5 (amended).  The stop signal is single-use.  A [Close] on a cluster
    whose [done] channel is still open closes it, then closes the session,
    the client and the server in that order, and returns with all three
    absent; each of the three closes returns normally in every world and
    does nothing when its resource was never created.  A [Close] on a
    cluster whose [done] channel is already closed panics before any of
    the three closes runs. *)
Theorem Close_single_use (w : world) :
  done (node w) = false ->
  let o := Close w in
  let w1 := {| node := set_done true (node w); env := env w |} in
  let w2 := world_of (closeSession w1) in
  let w3 := world_of (closeClient w2) in
  result_of o = Ok tt /\
  done (node (world_of o)) = true /\
  session (node (world_of o)) = None /\
  client (node (world_of o)) = None /\
  server (node (world_of o)) = None /\
  trace_of o =
    trace_of (closeSession w1) ++ trace_of (closeClient w2)
      ++ trace_of (closeServer w3) ++ [WgDone] /\
  (forall w', result_of (closeSession w') = Ok tt /\
              result_of (closeClient w') = Ok tt /\
              result_of (closeServer w') = Ok tt) /\
  (forall w', session (node w') = None -> closeSession w' = (Ok tt, w', [])) /\
  (forall w', client (node w') = None -> closeClient w' = (Ok tt, w', [])) /\
  (forall w', server (node w') = None -> closeServer w' = (Ok tt, w', [])) /\
  Close (world_of o) = (Panicked CloseOfClosedChannel, world_of o, [WgDone]).
Proof.
  intros Hopen. cbv zeta.
  pose proof (Close_open_run w Hopen) as Hrun. cbv zeta in Hrun.
  set (w1 := {| node := set_done true (node w); env := env w |}) in *.
  set (w2 := world_of (closeSession w1)) in *.
  set (w3 := world_of (closeClient w2)) in *.
  assert (Hr : result_of (Close w) = Ok tt) by (rewrite Hrun; reflexivity).
  assert (Hw : world_of (Close w) = world_of (closeServer w3))
    by (rewrite Hrun; reflexivity).
  assert (Ht : trace_of (Close w) =
               trace_of (closeSession w1) ++ trace_of (closeClient w2)
                 ++ trace_of (closeServer w3) ++ [WgDone])
    by (rewrite Hrun; reflexivity).
  rewrite Hr, Hw, Ht. clear Hrun Hr Hw Ht.
  assert (Hdone : done (node (world_of (closeServer w3))) = true).
  { rewrite (proj2 (proj2 (closeServer_frame w3))). subst w3.
    rewrite (proj2 (closeClient_frame w2)). subst w2.
    rewrite closeSession_frame. reflexivity. }
  split; [reflexivity |]. split; [exact Hdone |].
  split.
  { rewrite (proj1 (closeServer_frame w3)). subst w3.
    rewrite (proj1 (closeClient_frame w2)). subst w2. apply closeSession_safe. }
  split.
  { rewrite (proj1 (proj2 (closeServer_frame w3))). subst w3.
    apply closeClient_safe. }
  split; [apply closeServer_safe |].
  split; [reflexivity |].
  split.
  { intros w'. split; [apply closeSession_safe |].
    split; [apply closeClient_safe | apply closeServer_safe]. }
  split; [intros w'; apply closeSession_safe |].
  split; [intros w'; apply closeClient_safe |].
  split; [intros w'; apply closeServer_safe |].
  unfold Close, close_done, defer_.
  unfold mbind, mret, Go_bind, Go_ret, go_bind, go_ret, this, update, go_panic.
  cbn -[closeSession closeClient closeServer]. rewrite Hdone. reflexivity.
Qed.

Lemma Close_single_use_witness :
  result_of (Close Sample.world0) = Ok tt /\
  Close (world_of (Close Sample.world0))
    = (Panicked CloseOfClosedChannel, world_of (Close Sample.world0), [WgDone]).
Proof.
  pose proof (Close_single_use Sample.world0 eq_refl) as H. cbv zeta in H.
  split; [apply H |]. apply H.
Defined.

(* ===================================================================== *)
(** ** The lease *)

Ltac lease_unfold :=
  unfold initLease, PutUnderLease, getLease, Get, client_Get, client_Put,
    Lease_Grant, getClient, clientv3_New, alloc, none_of, all_calls_ok;
  go_unfold; cbn.

#[local] Arguments strTolease : simpl never.
#[local] Arguments fmt.Sprintf_x : simpl never.

(** Without a cached lease and with a readable, well-formed record at the
    lease key, [initLease] adopts the recorded lease and asks for none. *)
Lemma initLease_adopts (w : world) (s : string) (l l0 : LeaseID) :
  lease (node w) = None ->
  kv (env w) !! Lease (layout (node w)) = Some (s, l0) ->
  strTolease s = inr l ->
  fails (env w) (clock (env w)) (KvGet (Lease (layout (node w)))) = false ->
  initLease w =
    (Ok tt,
     {| node := set_lease (Some l) (node w);
        env := with_clock (S (clock (env w))) (env w) |},
     [Call (KvGet (Lease (layout (node w)))) true; Log Info "lease is ready"]).
Proof.
  intros Hnone Hkv Hparse Hget. lease_unfold.
  rewrite Hnone. cbn. rewrite Hget. cbn. rewrite Hkv. cbn.
  rewrite Hparse. cbn. reflexivity.
Qed.

(** A successful run that was granted a lease leaves it in the cache and,
    printed in hexadecimal, at the lease key. *)
Lemma initLease_persists (w : world) :
  result_of (initLease w) = Ok tt ->
  In (Call (LeaseGrant leaseTTL) true) (trace_of (initLease w)) ->
  exists l,
    lease (node (world_of (initLease w))) = Some l /\
    kv (env (world_of (initLease w))) !! Lease (layout (node w))
      = Some (fmt.Sprintf_x l, l).
Proof.
  lease_unfold.
  go_cases; intros Hres Hin; simplify_eq;
    try (exfalso; cbn in Hin; intuition discriminate).
  all: eexists; split; [reflexivity |]; apply lookup_insert_eq.
Qed.

(** C6.  A run of [initLease] that is granted a lease persists it at the
    lease key.  After a restart (the cached lease gone, the same key
    layout, the record at the lease key kept) a run of [initLease] that can
    read the key succeeds with the identical lease id in the cache, and
    asks the store for no new lease: parsing the persisted hexadecimal
    record gives back the id that was printed, and printing what was
    parsed gives back the record. *)
Theorem initLease_round_trip (w w2 : world) (l : LeaseID) :
  result_of (initLease w) = Ok tt ->
  In (Call (LeaseGrant leaseTTL) true) (trace_of (initLease w)) ->
  lease (node (world_of (initLease w))) = Some l ->
  is_int64 l ->
  lease (node w2) = None ->
  layout (node w2) = layout (node w) ->
  kv (env w2) !! Lease (layout (node w))
    = kv (env (world_of (initLease w))) !! Lease (layout (node w)) ->
  fails (env w2) (clock (env w2)) (KvGet (Lease (layout (node w)))) = false ->
  result_of (initLease w2) = Ok tt /\
  lease (node (world_of (initLease w2))) = Some l /\
  none_of is_lease_grant (trace_of (initLease w2)) /\
  strTolease (fmt.Sprintf_x l) = inr l /\
  (forall l', strTolease (fmt.Sprintf_x l) = inr l' ->
              fmt.Sprintf_x l' = fmt.Sprintf_x l).
Proof.
  intros Hres Hgrant Hl Hint Hnone Hlayout Hkept Hget.
  destruct (initLease_persists w Hres Hgrant) as (l' & Hl' & Hkv).
  assert (l' = l) by congruence. subst l'.
  pose proof (strTolease_Sprintf_x l Hint) as Hparse.
  rewrite <- Hkept, <- Hlayout in Hkv. rewrite <- Hlayout in Hget.
  rewrite (initLease_adopts w2 _ l l Hnone Hkv Hparse Hget).
  repeat split; auto.
  intros l2 Hl2. congruence.
Qed.

Lemma initLease_round_trip_witness :
  let restarted := {| node := Sample.node0; env := env Sample.world_ready |} in
  result_of (initLease restarted) = Ok tt /\
  lease (node (world_of (initLease restarted))) = Some 8002.
Proof.
  pose proof (initLease_round_trip Sample.world0
                {| node := Sample.node0; env := env Sample.world_ready |}
                8002) as H.
  cbv zeta. destruct H as (Hres & Hl & _).
  - vm_compute. reflexivity.
  - vm_compute. auto 10.
  - vm_compute. reflexivity.
  - unfold is_int64, minInt64, maxInt64. lia.
  - reflexivity.
  - reflexivity.
  - reflexivity.
  - reflexivity.
  - split; [exact Hres | exact Hl].
Defined.

(** C7.  A run of [initLease] that is granted a lease [l] is the read of
    the lease key, the client lookup and the grant, followed by the
    persisting write issued from a world in which [l] is already cached.
    Whatever the write returns, [l] stays cached; if the write fails, the
    run returns the wrapped error ("put lease to ... failed") and a
    following [getLease] returns [l]. *)
Theorem initLease_caches_before_persisting (w : world) :
  In (Call (LeaseGrant leaseTTL) true) (trace_of (initLease w)) ->
  let key := Lease (layout (node w)) in
  let w1 := world_of (Get key w) in
  let w2 := world_of (getClient w1) in
  let l := lease_ids (env w2) (clock (env w2)) in
  let w3 := world_of (Lease_Grant leaseTTL w2) in
  let cached := {| node := set_lease (Some l) (node w3); env := env w3 |} in
  let write := wrap_err (ErrPutLease key) (PutUnderLease key (fmt.Sprintf_x l)) in
  lease (node cached) = Some l /\
  initLease w =
    (result_of (write cached), world_of (write cached),
     trace_of (Get key w) ++ trace_of (getClient w1)
       ++ [Call (LeaseGrant leaseTTL) true; Log Info "lease is ready"]
       ++ trace_of (write cached)) /\
  (exists ok, trace_of (write cached)
              = [Call (KvPut key (fmt.Sprintf_x l) l) ok]) /\
  lease (node (world_of (initLease w))) = Some l /\
  (In (Call (KvPut key (fmt.Sprintf_x l) l) false) (trace_of (initLease w)) ->
   result_of (initLease w)
     = Err (ErrPutLease key (ErrCall (KvPut key (fmt.Sprintf_x l) l))) /\
   getLease (world_of (initLease w)) = (Ok l, world_of (initLease w), [])).
Proof.
  lease_unfold.
  go_cases; intros Hin; simplify_eq;
    try (exfalso; cbn in Hin; intuition discriminate).
  all: repeat split; eauto.
  all: match goal with
       | H : In _ _ |- _ => cbn in H
       | H : _ \/ _ |- _ => idtac
       end.
  all: exfalso; intuition discriminate.
Qed.

Lemma initLease_caches_before_persisting_witness :
  result_of (initLease Sample.world_read_only)
    = Err (ErrPutLease "/leases/node1"
             (ErrCall (KvPut "/leases/node1" "1f42" 8002))) /\
  getLease (world_of (initLease Sample.world_read_only))
    = (Ok 8002, world_of (initLease Sample.world_read_only), []).
Proof.
  pose proof (initLease_caches_before_persisting Sample.world_read_only) as H.
  cbv zeta in H. destruct H as (_ & _ & _ & _ & H).
  - vm_compute. auto 10.
  - apply H. vm_compute. auto 10.
Defined.

(* ===================================================================== *)
(** ** Properties of the world that a method leaves in place *)

Section Frames.

Variable P : world -> Prop.

Lemma frames_ret {A} (a : A) : frames P (mret a).
Proof. intros w H. exact H. Qed.

Lemma frames_bind {A B} (m : Go A) (k : A -> Go B) :
  frames P m -> (forall a, frames P (k a)) -> frames P (m ≫= k).
Proof.
  intros Hm Hk w H. specialize (Hm w H).
  unfold world_of, mbind, Go_bind, go_bind in *.
  destruct (m w) as [[[a | e | p] w1] t1]; cbn in *; try exact Hm.
  specialize (Hk a w1 Hm). destruct (k a w1) as [[r w2] t2]. exact Hk.
Qed.

Lemma frames_try {A} (m : Go A) : frames P m -> frames P (try m).
Proof.
  intros Hm w H. specialize (Hm w H). unfold world_of, try in *.
  destruct (m w) as [[[a | e | p] w1] t1]; exact Hm.
Qed.

Lemma frames_wrap_err {A} (f : error -> error) (m : Go A) :
  frames P m -> frames P (wrap_err f m).
Proof.
  intros Hm w H. specialize (Hm w H). unfold world_of, wrap_err in *.
  destruct (m w) as [[[a | e | p] w1] t1]; exact Hm.
Qed.

Lemma frames_defer {A} (m : Go A) (ev : event) :
  frames P m -> frames P (defer_ m ev).
Proof.
  intros Hm w H. specialize (Hm w H). unfold world_of, defer_ in *.
  destruct (m w) as [[r w1] t1]. exact Hm.
Qed.

Lemma frames_this : frames P this.
Proof. intros w H. exact H. Qed.

Lemma frames_throw {A} (e : error) : frames P (@throw A e).
Proof. intros w H. exact H. Qed.

Lemma frames_panic {A} (p : panic) : frames P (@go_panic A p).
Proof. intros w H. exact H. Qed.

Lemma frames_logf (lv : level) (msg : string) : frames P (logf lv msg).
Proof. intros w H. exact H. Qed.

End Frames.

(** Take a method apart down to its calls and assignments, which [leaf]
    settles. *)
Ltac frame_go leaf :=
  repeat first
    [ apply frames_ret
    | apply frames_this
    | apply frames_throw
    | apply frames_panic
    | apply frames_logf
    | apply frames_try
    | apply frames_wrap_err
    | apply frames_defer
    | match goal with
      | |- frames _ (match ?x with _ => _ end) => destruct x
      | |- frames _ (if ?x then _ else _) => destruct x
      | |- frames _ (let _ := _ in _) => cbv zeta
      end
    | leaf
    | apply frames_bind; [| intros ?] ].

(** Calls and store effects leave the [cluster] struct alone. *)
Lemma call_node {A} (r : rpc) (serve : etcd -> A * etcd) (w : world) :
  node (world_of (call r serve w)) = node w.
Proof.
  unfold call, world_of. cbn. destruct (fails _ _ _); [reflexivity |].
  destruct (serve (env w)). reflexivity.
Qed.

Lemma act_node (r : rpc) (effect : etcd -> etcd) (w : world) :
  node (world_of (act r effect w)) = node w.
Proof. reflexivity. Qed.

Ltac done_leaf :=
  idtac;
  match goal with
  | |- frames (done_is _) (call _ _) =>
      intros ? ?; unfold done_is; rewrite call_node; assumption
  | |- frames (done_is _) (act _ _) => intros ? ?; assumption
  | |- frames (done_is _) (update _) => intros ? ?; assumption
  | |- frames (done_is _) (ready_notified _) => intros ? ?; assumption
  | |- frames (done_is _) (fun w => (Ok w, w, [])) => intros ? ?; assumption
  end.

Lemma getClient_done (b : bool) : frames (done_is b) getClient.
Proof. unfold getClient, clientv3_New. frame_go done_leaf. Qed.

Lemma getLease_done (b : bool) : frames (done_is b) getLease.
Proof. unfold getLease. frame_go done_leaf. Qed.

Lemma getServer_done (b : bool) : frames (done_is b) getServer.
Proof. unfold getServer. frame_go done_leaf. Qed.

Lemma syncStatus_done (b : bool) : frames (done_is b) syncStatus.
Proof.
  unfold syncStatus, PutUnderLease, client_Put.
  frame_go ltac:(idtac; first [done_leaf | apply getLease_done | apply getServer_done]).
Qed.

Lemma updateMembers_done (b : bool) : frames (done_is b) updateMembers.
Proof.
  unfold updateMembers, client_MemberList.
  frame_go ltac:(idtac; first [done_leaf | apply getClient_done]).
Qed.

Lemma heartbeat_tick_done (b : bool) : frames (done_is b) heartbeat_tick.
Proof.
  unfold heartbeat_tick.
  frame_go ltac:(idtac; first [apply syncStatus_done | apply updateMembers_done]).
Qed.

(* ===================================================================== *)
(** ** The heartbeat loop *)

Lemma syncStatus_returns (w : world) (p : panic) :
  result_of (syncStatus w) <> Panicked p.
Proof.
  unfold syncStatus, PutUnderLease, client_Put, getLease, getServer.
  go_unfold. cbn. go_cases; discriminate.
Qed.

Lemma updateMembers_returns (w : world) (p : panic) :
  result_of (updateMembers w) <> Panicked p.
Proof.
  unfold updateMembers, client_MemberList, getClient, clientv3_New, alloc.
  go_unfold. cbn. go_cases; discriminate.
Qed.

(** A tick is the status publish followed, whatever it returned, by the
    membership refresh from the world the publish left. *)
Lemma heartbeat_tick_run (w : world) :
  let w1 := world_of (syncStatus w) in
  heartbeat_tick w =
    (Ok tt, world_of (updateMembers w1),
     trace_of (syncStatus w)
       ++ logged (result_of (syncStatus w)) "sync status failed: %v"
       ++ trace_of (updateMembers w1)
       ++ logged (result_of (updateMembers w1)) "update members failed: %v").
Proof.
  cbv zeta. unfold heartbeat_tick.
  unfold mbind, mret, Go_bind, Go_ret, go_bind, go_ret, try, logf, emit.
  pose proof (syncStatus_returns w) as Hs.
  destruct (syncStatus w) as [[rs w1] t1].
  unfold result_of, world_of, trace_of in *. cbn [fst snd] in *.
  destruct rs as [[] | es | ps]; [| | exfalso; eapply Hs; reflexivity].
  all: cbn -[updateMembers].
  all: pose proof (updateMembers_returns w1) as Hu.
  all: destruct (updateMembers w1) as [[ru w2] t2].
  all: unfold result_of in *; cbn [fst snd] in *.
  all: destruct ru as [[] | eu | pu]; try (exfalso; eapply Hu; reflexivity).
  all: cbn; rewrite ?app_nil_r, <- ?app_assoc; reflexivity.
Qed.

Lemma heartbeat_step (rest : list wake) (w : world) :
  let w' := world_of (heartbeat_tick w) in
  heartbeat (Timer :: rest) w =
    (result_of (heartbeat rest w'), world_of (heartbeat rest w'),
     trace_of (heartbeat_tick w) ++ trace_of (heartbeat rest w')).
Proof.
  cbv zeta. cbn [heartbeat].
  unfold mbind, Go_bind, go_bind. rewrite (heartbeat_tick_run w).
  unfold world_of at 4 5 6, trace_of at 3. cbn [fst snd].
  destruct (heartbeat rest _) as [[r w2] t2]. reflexivity.
Qed.

(** C9.  In a heartbeat tick the status publish and the membership refresh
    are independent and best-effort: the refresh runs from the world the
    publish left whatever the publish returned, a failure of either is
    only logged, and the tick itself always returns.  After a tick the
    loop goes on with the rest of its wake-ups whatever the two steps
    returned, and it returns only at a wake-up on the [done] channel,
    which needs the channel closed. *)
Theorem heartbeat_best_effort :
  (forall w,
     let w1 := world_of (syncStatus w) in
     heartbeat_tick w =
       (Ok tt, world_of (updateMembers w1),
        trace_of (syncStatus w)
          ++ logged (result_of (syncStatus w)) "sync status failed: %v"
          ++ trace_of (updateMembers w1)
          ++ logged (result_of (updateMembers w1))
               "update members failed: %v")) /\
  (forall rest w,
     let w' := world_of (heartbeat_tick w) in
     heartbeat (Timer :: rest) w =
       (result_of (heartbeat rest w'), world_of (heartbeat rest w'),
        trace_of (heartbeat_tick w) ++ trace_of (heartbeat rest w'))) /\
  (forall sched w,
     (result_of (heartbeat sched w) = Ok Returned \/
      result_of (heartbeat sched w) = Ok Blocked) /\
     (result_of (heartbeat sched w) = Ok Returned <->
      done (node w) = true /\ In Shutdown sched)).
Proof.
  split; [exact heartbeat_tick_run |]. split; [exact heartbeat_step |].
  induction sched as [| k rest IH]; intros w.
  - split; [right; reflexivity |]. split.
    + discriminate.
    + intros [_ []].
  - destruct k.
    + rewrite heartbeat_step. cbv zeta. unfold result_of at 1 2 3. cbn [fst].
      fold (result_of (heartbeat rest (world_of (heartbeat_tick w)))).
      destruct (IH (world_of (heartbeat_tick w))) as [Hor Hiff].
      pose proof (heartbeat_tick_done (done (node w)) w eq_refl) as Hd.
      unfold done_is in Hd.
      split; [exact Hor |]. rewrite Hiff, Hd. cbn.
      split; [intros [? ?]; auto | intros [? [? | ?]]; [discriminate | auto]].
    + cbn [heartbeat]. unfold mbind, mret, Go_bind, Go_ret, go_bind, go_ret,
        this, result_of. cbn.
      destruct (done (node w)); cbn.
      * split; [left; reflexivity |]. split; auto.
      * split; [right; reflexivity |]. split; [discriminate |].
        intros [? _]; discriminate.
Qed.

(* ===================================================================== *)
(** ** The cached server after the monitor stopped it *)

Lemma call_stopped {A} (s : handle) (r : rpc) (serve : etcd -> A * etcd) :
  (forall e, closed e ⊆ closed (serve e).2) ->
  frames (stopped_and_cached s) (call r serve).
Proof.
  intros Hserve w [Hs Hc]. unfold stopped_and_cached, call, world_of. cbn.
  destruct (fails _ _ _); cbn; [split; assumption |].
  specialize (Hserve (env w)). destruct (serve (env w)) as [a e']. cbn in *.
  split; [assumption | set_solver].
Qed.

Lemma act_stopped (s : handle) (r : rpc) (effect : etcd -> etcd) :
  (forall e, closed e ⊆ closed (effect e)) ->
  frames (stopped_and_cached s) (act r effect).
Proof.
  intros Heffect w [Hs Hc]. unfold stopped_and_cached, act, world_of. cbn.
  specialize (Heffect (env w)). split; [assumption | set_solver].
Qed.

Lemma update_stopped (s : handle) (f : cluster -> cluster) :
  (forall c, server (f c) = server c) ->
  frames (stopped_and_cached s) (update f).
Proof.
  intros Hf w [Hs Hc]. unfold stopped_and_cached, update, world_of. cbn.
  rewrite Hf. split; assumption.
Qed.

Ltac stopped_leaf :=
  idtac;
  match goal with
  | |- frames (stopped_and_cached _) (call _ _) =>
      apply call_stopped; intros ?; cbn; set_solver
  | |- frames (stopped_and_cached _) (act _ _) =>
      apply act_stopped; intros ?; cbn; set_solver
  | |- frames (stopped_and_cached _) (update _) =>
      apply update_stopped; intros ?; reflexivity
  | |- frames (stopped_and_cached _) (fun w => (Ok w, w, [])) =>
      intros ? ?; assumption
  end.

Section Stopped.

Variable s : handle.

Lemma getClient_stopped : frames (stopped_and_cached s) getClient.
Proof. unfold getClient, clientv3_New, alloc. frame_go stopped_leaf. Qed.

Lemma getLease_stopped : frames (stopped_and_cached s) getLease.
Proof. unfold getLease. frame_go stopped_leaf. Qed.

Lemma getServer_stopped : frames (stopped_and_cached s) getServer.
Proof. unfold getServer. frame_go stopped_leaf. Qed.

Lemma closeClient_stopped : frames (stopped_and_cached s) closeClient.
Proof.
  unfold closeClient, client_Close, close_handle. frame_go stopped_leaf.
Qed.

Lemma closeSession_stopped : frames (stopped_and_cached s) closeSession.
Proof.
  unfold closeSession, session_Close, close_handle. frame_go stopped_leaf.
Qed.

Lemma PutUnderLease_stopped (key val : string) :
  frames (stopped_and_cached s) (PutUnderLease key val).
Proof.
  unfold PutUnderLease, client_Put.
  frame_go ltac:(idtac; first [stopped_leaf | apply getLease_stopped]).
Qed.

Lemma initLease_stopped : frames (stopped_and_cached s) initLease.
Proof.
  unfold initLease, Get, client_Get, Lease_Grant.
  frame_go ltac:(idtac; first [stopped_leaf | apply getLease_stopped
                              | apply getClient_stopped
                              | apply PutUnderLease_stopped]).
Qed.

Lemma getSession_stopped : frames (stopped_and_cached s) getSession.
Proof.
  unfold getSession, concurrency_NewSession, alloc.
  frame_go ltac:(idtac; first [stopped_leaf | apply getLease_stopped
                              | apply getClient_stopped]).
Qed.

Lemma closeEtcdServer_stopped (s' : handle) :
  frames (stopped_and_cached s) (closeEtcdServer s').
Proof. unfold closeEtcdServer, close_handle. frame_go stopped_leaf. Qed.

Lemma monitorServer_stopped (s' : handle) (m : monitored) :
  frames (stopped_and_cached s) (monitorServer s' m).
Proof.
  unfold monitorServer.
  frame_go ltac:(idtac; first [stopped_leaf | apply closeEtcdServer_stopped]).
Qed.

Lemma heartbeat_tick_stopped : frames (stopped_and_cached s) heartbeat_tick.
Proof.
  unfold heartbeat_tick, syncStatus, updateMembers, client_MemberList.
  frame_go ltac:(idtac; first [stopped_leaf | apply getServer_stopped
                              | apply getClient_stopped
                              | apply PutUnderLease_stopped]).
Qed.

Lemma defrag_tick_stopped (i : Duration) :
  frames (stopped_and_cached s) (defrag_tick i).
Proof.
  unfold defrag_tick, client_Defragment.
  frame_go ltac:(idtac; first [stopped_leaf | apply getClient_stopped]).
Qed.

Lemma find_self_stopped (me : member) (ms : list pb.Member) :
  frames (stopped_and_cached s) (find_self me ms).
Proof.
  intros w H.
  destruct (find_self_cases me ms w)
    as [(-> & _) | [(-> & _) | (msg & line & -> & _)]]; exact H.
Qed.

Lemma addSelfToCluster_stopped : frames (stopped_and_cached s) addSelfToCluster.
Proof.
  unfold addSelfToCluster, client_MemberList, client_MemberAdd.
  frame_go ltac:(idtac; first [stopped_leaf | apply getClient_stopped
                              | apply find_self_stopped]).
Qed.

Lemma PurgeMember_stopped (memberName : string) :
  frames (stopped_and_cached s) (PurgeMember memberName).
Proof.
  unfold PurgeMember, Get, client_Get, client_MemberList, client_MemberRemove,
    Lease_Revoke.
  frame_go ltac:(idtac; first [stopped_leaf | apply getClient_stopped]).
Qed.

(** With the server cached, [startServer] hands back the closed [done]
    channel and starts nothing. *)
Lemma startServer_stopped (r : race) :
  frames (stopped_and_cached s) (run_op (OpStartServer r)).
Proof.
  intros w [Hs Hc]. unfold run_op, startServer. go_unfold. cbn.
  rewrite Hs. cbn. split; assumption.
Qed.

Lemma run_op_stopped (o : op) :
  closes_server o = false -> frames (stopped_and_cached s) (run_op o).
Proof.
  destruct o; cbn [closes_server]; intros Hc; try discriminate.
  all: try apply startServer_stopped.
  all: unfold run_op, void.
  all: frame_go ltac:(idtac; first
         [ apply getClient_stopped | apply closeClient_stopped
         | apply getLease_stopped | apply initLease_stopped
         | apply getSession_stopped | apply closeSession_stopped
         | apply getServer_stopped | apply monitorServer_stopped
         | apply heartbeat_tick_stopped | apply defrag_tick_stopped
         | apply addSelfToCluster_stopped | apply PurgeMember_stopped ]).
Qed.

Lemma run_ops_stopped (ops : list op) :
  forallb (fun o => negb (closes_server o)) ops = true ->
  frames (stopped_and_cached s) (run_ops ops).
Proof.
  induction ops as [| o rest IH]; cbn [forallb run_ops]; intros Hops.
  - apply frames_ret.
  - apply andb_prop in Hops. destruct Hops as [Ho Hrest].
    apply negb_true_iff in Ho.
    apply frames_bind; [apply frames_try, run_op_stopped, Ho |].
    intros _. apply IH, Hrest.
Qed.

End Stopped.

(** C10.  With the server [s] cached, the monitor that sees a server error
    stops [s] and returns with the cached field unchanged.  From then on,
    through any sequence of operations other than [closeServer] and
    [Close], the field still holds the stopped [s] and [getServer] returns
    it rather than the not-ready error; after a [closeServer] it returns
    that error. *)
Theorem monitorServer_keeps_cached_server (w : world) (s : handle) :
  server (node w) = Some s ->
  let o := monitorServer s ServerErr w in
  result_of o = Ok tt /\
  stopped_and_cached s (world_of o) /\
  getServer (world_of o) = (Ok s, world_of o, []) /\
  forall ops,
    forallb (fun o => negb (closes_server o)) ops = true ->
    let w' := world_of (run_ops ops (world_of o)) in
    stopped_and_cached s w' /\
    getServer w' = (Ok s, w', []) /\
    result_of (getServer (world_of (closeServer w'))) = Err ErrServerNotReady.
Proof.
  intros Hs. cbv zeta.
  assert (Hrun : result_of (monitorServer s ServerErr w) = Ok tt /\
                 stopped_and_cached s (world_of (monitorServer s ServerErr w))).
  { unfold monitorServer, closeEtcdServer, close_handle, stopped_and_cached.
    go_unfold. cbn. rewrite Hs. cbn.
    go_cases; (split; [reflexivity |]; split; [assumption | set_solver]). }
  destruct Hrun as [Hres Hstop].
  split; [exact Hres |]. split; [exact Hstop |].
  split.
  { rewrite getServer_spec. destruct Hstop as [-> _]. reflexivity. }
  intros ops Hops.
  pose proof (run_ops_stopped s ops Hops _ Hstop) as Hstop'.
  split; [exact Hstop' |]. split.
  - rewrite getServer_spec. destruct Hstop' as [-> _]. reflexivity.
  - rewrite getServer_spec.
    rewrite (proj1 (proj2 (closeServer_safe _))). reflexivity.
Qed.

Lemma monitorServer_keeps_cached_server_witness :
  result_of (monitorServer 1%nat ServerErr Sample.world_serving) = Ok tt /\
  getServer (world_of (monitorServer 1%nat ServerErr Sample.world_serving))
    = (Ok 1%nat,
       world_of (monitorServer 1%nat ServerErr Sample.world_serving), []).
Proof.
  pose proof (monitorServer_keeps_cached_server
                Sample.world_serving 1%nat eq_refl) as H.
  cbv zeta in H. split; apply H.
Defined.

(* ===================================================================== *)
(** ** What [strTolease] accepts *)

Section ParseLease.

Import strconv.

Lemma digit_val_nonneg (c d : Z) : digit_val c = Some d -> 0 <= d.
Proof.
  unfold digit_val.
  destruct ((48 <=? c) && (c <=? 57)) eqn:H1.
  - intros [= <-]. apply andb_prop in H1. lia.
  - destruct ((97 <=? lower c) && (lower c <=? 122)) eqn:H2; [| discriminate].
    intros [= <-]. apply andb_prop in H2. lia.
Qed.

(** One round of the loop of [ParseUint] in base 16. *)
Lemma parse_loop_step (c : ascii) (rest : string) (n : Z) :
  0 <= n <= maxUint64 ->
  parse_loop 16 (String c rest) n =
    match digit_val (byte_of c) with
    | None => inl ErrSyntax
    | Some d =>
        if 16 <=? d then inl ErrSyntax
        else if 2 ^ 60 <=? n then inl ErrRange
        else parse_loop 16 rest (n * 16 + d)
    end.
Proof.
  intros Hn. cbn [parse_loop].
  destruct (digit_val (byte_of c)) as [d |] eqn:Hd; [| reflexivity].
  pose proof (digit_val_nonneg _ _ Hd) as Hd0.
  destruct (16 <=? d) eqn:H16; [reflexivity |].
  change (maxUint64 / 16 + 1) with (2 ^ 60).
  destruct (2 ^ 60 <=? n) eqn:Hcut; [reflexivity |].
  apply Z.leb_gt in H16, Hcut. cbv zeta.
  assert (Hsmall : 0 <= n * 16 + d < 2 ^ 64).
  { change (2 ^ 64) with (2 ^ 60 * 16). lia. }
  rewrite (Z.mod_small _ _ Hsmall).
  assert (Hlt : (n * 16 + d <? n * 16) = false) by (apply Z.ltb_ge; lia).
  assert (Hmax : (maxUint64 <? n * 16 + d) = false).
  { apply Z.ltb_ge. unfold maxUint64. lia. }
  rewrite Hlt, Hmax. reflexivity.
Qed.

(** What the loop returns is the exact value of a string of hexadecimal
    digits, within [uint64]. *)
Lemma parse_loop_exact (s : string) :
  forall n v,
    0 <= n <= maxUint64 ->
    parse_loop 16 s n = inr v ->
    all_hex s = true /\ v = hex_value_from s n /\ 0 <= v <= maxUint64.
Proof.
  induction s as [| c rest IH]; intros n v Hn Hparse.
  - cbn in Hparse. injection Hparse as <-. cbn. auto.
  - rewrite parse_loop_step in Hparse by assumption.
    cbn [all_hex hex_value_from]. unfold is_hex_digit.
    destruct (digit_val (byte_of c)) as [d |] eqn:Hd; [| discriminate].
    pose proof (digit_val_nonneg _ _ Hd) as Hd0.
    destruct (16 <=? d) eqn:H16; [discriminate |].
    destruct (2 ^ 60 <=? n) eqn:Hcut; [discriminate |].
    apply Z.leb_gt in H16, Hcut.
    assert (Hn' : 0 <= n * 16 + d <= maxUint64).
    { unfold maxUint64. change (2 ^ 64) with (2 ^ 60 * 16). lia. }
    destruct (IH _ _ Hn' Hparse) as (Hall & Hv & Hrange).
    rewrite Hall. replace (d <? 16) with true by (symmetry; apply Z.ltb_lt; lia).
    auto.
Qed.

Lemma hex_value_from_ge (s : string) :
  forall n, 0 <= n -> all_hex s = true -> n <= hex_value_from s n.
Proof.
  induction s as [| c rest IH]; intros n Hn Hall; cbn in *; [lia |].
  unfold is_hex_digit in Hall.
  destruct (digit_val (byte_of c)) as [d |] eqn:Hd; [| discriminate].
  pose proof (digit_val_nonneg _ _ Hd) as Hd0.
  apply andb_prop in Hall. destruct Hall as [_ Hall].
  specialize (IH (n * 16 + d) ltac:(lia) Hall). lia.
Qed.

(** The loop accepts every string of hexadecimal digits whose value fits
    [uint64]. *)
Lemma parse_loop_complete (s : string) :
  forall n,
    0 <= n -> all_hex s = true -> hex_value_from s n <= maxUint64 ->
    parse_loop 16 s n = inr (hex_value_from s n).
Proof.
  induction s as [| c rest IH]; intros n Hn Hall Hfit; [reflexivity |].
  pose proof (hex_value_from_ge _ n Hn Hall) as Hge.
  rewrite parse_loop_step by lia.
  cbn [all_hex hex_value_from] in *. unfold is_hex_digit in Hall.
  destruct (digit_val (byte_of c)) as [d |] eqn:Hd; [| discriminate].
  pose proof (digit_val_nonneg _ _ Hd) as Hd0.
  apply andb_prop in Hall. destruct Hall as [Hd16 Hall].
  apply Z.ltb_lt in Hd16.
  replace (16 <=? d) with false by (symmetry; apply Z.leb_gt; lia).
  pose proof (hex_value_from_ge rest (n * 16 + d) ltac:(lia) Hall) as Hge'.
  assert (Hcut : (2 ^ 60 <=? n) = false).
  { apply Z.leb_gt. unfold maxUint64 in Hfit.
    change (2 ^ 64) with (2 ^ 60 * 16) in Hfit. lia. }
  rewrite Hcut. apply IH; [lia | assumption | assumption].
Qed.

Lemma to_int64_small (v : Z) : 0 <= v < 2 ^ 63 -> to_int64 v = v.
Proof.
  intros Hv. unfold to_int64. rewrite Z.mod_small by lia.
  replace (v <? 2 ^ 63) with true by (symmetry; apply Z.ltb_lt; lia).
  reflexivity.
Qed.

Lemma to_int64_neg (v : Z) : 0 < v <= 2 ^ 63 -> to_int64 (- v) = - v.
Proof.
  intros Hv. unfold to_int64.
  replace ((- v) mod 2 ^ 64) with (- v + 2 ^ 64)
    by (apply Z.mod_unique with (q := -1); lia).
  replace (- v + 2 ^ 64 <? 2 ^ 63) with false
    by (symmetry; apply Z.ltb_ge; lia).
  lia.
Qed.

Lemma ParseUint_exact (body : string) (un : Z) (e : option NumError) :
  ParseUint body 16 = (un, e) ->
  e <> Some ErrSyntax ->
  (e = None /\ body <> EmptyString /\ all_hex body = true /\
   un = hex_value body /\ 0 <= un <= maxUint64) \/
  (e = Some ErrRange /\ un = maxUint64).
Proof.
  unfold ParseUint. destruct body as [| c rest]; [intros [= <- <-]; congruence |].
  destruct (parse_loop 16 (String c rest) 0) as [[] | v] eqn:Hloop.
  - intros [= <- <-]. congruence.
  - intros [= <- <-] _. right. auto.
  - intros [= <- <-] _. left.
    destruct (parse_loop_exact _ 0 v ltac:(unfold maxUint64; lia) Hloop)
      as (Hall & Hv & Hrange).
    repeat split; auto; try discriminate; lia.
Qed.

End ParseLease.

(** X1.  What [strTolease] returns is exact: the string is an optional
    sign followed by at least one hexadecimal digit and nothing else, and
    the lease is the signed value those digits denote, which lies in the
    [int64] range.  A value out of range is an error, never a wrapped
    number. *)
Theorem strTolease_exact (s : string) (l : LeaseID) :
  strTolease s = inr l ->
  exists body,
    (s = body \/ s = String "+" body \/ s = String "-" body) /\
    body <> EmptyString /\
    all_hex body = true /\
    l = (if String.prefix "-" s then - hex_value body else hex_value body) /\
    is_int64 l.
Proof.
  unfold strTolease, strconv.ParseInt.
  destruct s as [| c0 rest]; [discriminate |].
  destruct (Ascii.eqb c0 "+") eqn:Hplus.
  { apply Ascii.eqb_eq in Hplus. subst c0.
    destruct (strconv.ParseUint rest 16) as [un e] eqn:Hu.
    destruct e as [[] |]; try discriminate.
    - destruct (ParseUint_exact _ _ _ Hu ltac:(discriminate))
        as [(? & _) | (_ & ->)]; [discriminate |].
      cbn. discriminate.
    - destruct (ParseUint_exact _ _ _ Hu ltac:(discriminate))
        as [(_ & Hne & Hall & -> & Hr) | (? & _)]; [| discriminate].
      cbv zeta. cbn [negb andb].
      destruct (2 ^ 63 <=? hex_value rest) eqn:Hcut; [discriminate |].
      apply Z.leb_gt in Hcut. intros [= <-]. exists rest.
      rewrite to_int64_small by lia.
      repeat split; auto; unfold is_int64, minInt64, maxInt64; lia. }
  destruct (Ascii.eqb c0 "-") eqn:Hminus.
  { apply Ascii.eqb_eq in Hminus. subst c0.
    destruct (strconv.ParseUint rest 16) as [un e] eqn:Hu.
    destruct e as [[] |]; try discriminate.
    - destruct (ParseUint_exact _ _ _ Hu ltac:(discriminate))
        as [(? & _) | (_ & ->)]; [discriminate |].
      cbn. discriminate.
    - destruct (ParseUint_exact _ _ _ Hu ltac:(discriminate))
        as [(_ & Hne & Hall & -> & Hr) | (? & _)]; [| discriminate].
      cbv zeta. cbn [negb andb].
      destruct (2 ^ 63 <? hex_value rest) eqn:Hcut; [discriminate |].
      apply Z.ltb_ge in Hcut. intros [= <-]. exists rest.
      assert (Hval : to_int64 (- to_int64 (hex_value rest)) = - hex_value rest).
      { destruct (Z.eq_dec (hex_value rest) 0) as [-> | Hnz]; [reflexivity |].
        destruct (Z.eq_dec (hex_value rest) (2 ^ 63)) as [-> | Hnmax];
          [reflexivity |].
        rewrite (to_int64_small (hex_value rest)) by lia.
        apply to_int64_neg. lia. }
      rewrite Hval.
      assert (Hpre : String.prefix "-" (String "-" rest) = true).
      { change (String.prefix "-" (String "-" rest))
          with (if ascii_dec "-" "-" then String.prefix "" rest else false).
        destruct (ascii_dec "-" "-"); [| congruence].
        destruct rest; reflexivity. }
      rewrite Hpre.
      repeat split; auto; unfold is_int64, minInt64, maxInt64; lia. }
  destruct (strconv.ParseUint (String c0 rest) 16) as [un e] eqn:Hu.
  destruct e as [[] |]; try discriminate.
  - destruct (ParseUint_exact _ _ _ Hu ltac:(discriminate))
      as [(? & _) | (_ & ->)]; [discriminate |].
    cbn. discriminate.
  - destruct (ParseUint_exact _ _ _ Hu ltac:(discriminate))
      as [(_ & Hne & Hall & -> & Hr) | (? & _)]; [| discriminate].
    cbv zeta. cbn [negb andb].
    destruct (2 ^ 63 <=? hex_value (String c0 rest)) eqn:Hcut; [discriminate |].
    apply Z.leb_gt in Hcut. intros [= <-]. exists (String c0 rest).
    rewrite to_int64_small by lia.
    assert (Hpre : String.prefix "-" (String c0 rest) = false).
    { change (String.prefix "-" (String c0 rest))
        with (if ascii_dec "-" c0 then String.prefix "" rest else false).
      destruct (ascii_dec "-" c0) as [<- | _]; [discriminate | reflexivity]. }
    rewrite Hpre.
    repeat split; auto; unfold is_int64, minInt64, maxInt64; lia.
Qed.

Lemma strTolease_exact_witness :
  exists body,
    ("-1F" = body \/ "-1F" = String "+" body \/ "-1F" = String "-" body) /\
    body <> EmptyString /\ all_hex body = true /\
    -31 = (if String.prefix "-" "-1F" then - hex_value body else hex_value body) /\
    is_int64 (-31).
Proof. exact (strTolease_exact "-1F" (-31) eq_refl). Defined.

(** A string of hexadecimal digits whose value does not fit [uint64] makes
    the loop of [ParseUint] stop with a range error. *)
Lemma parse_loop_overflow (s : string) :
  forall n,
    0 <= n <= maxUint64 -> all_hex s = true ->
    maxUint64 < hex_value_from s n ->
    strconv.parse_loop 16 s n = inl strconv.ErrRange.
Proof.
  induction s as [| c rest IH]; intros n Hn Hall Hbig.
  - cbn in Hbig. lia.
  - rewrite parse_loop_step by assumption.
    cbn [all_hex hex_value_from] in *. unfold is_hex_digit in Hall.
    destruct (strconv.digit_val (strconv.byte_of c)) as [d |] eqn:Hd;
      [| discriminate].
    pose proof (digit_val_nonneg _ _ Hd) as Hd0.
    apply andb_prop in Hall. destruct Hall as [Hd16 Hall].
    apply Z.ltb_lt in Hd16.
    replace (16 <=? d) with false by (symmetry; apply Z.leb_gt; lia).
    destruct (2 ^ 60 <=? n) eqn:Hcut; [reflexivity |].
    apply Z.leb_gt in Hcut. apply IH; [| assumption | assumption].
    unfold maxUint64. change (2 ^ 64) with (2 ^ 60 * 16). lia.
Qed.

Lemma ParseUint_hex (body : string) :
  body <> EmptyString -> all_hex body = true ->
  strconv.ParseUint body 16 =
    if hex_value body <=? maxUint64 then (hex_value body, None)
    else (maxUint64, Some strconv.ErrRange).
Proof.
  intros Hne Hall. unfold strconv.ParseUint, hex_value.
  destruct body as [| c rest]; [congruence |].
  destruct (hex_value_from (String c rest) 0 <=? maxUint64) eqn:Hfit.
  - apply Z.leb_le in Hfit.
    rewrite parse_loop_complete by (auto; lia). reflexivity.
  - apply Z.leb_gt in Hfit.
    rewrite parse_loop_overflow by (auto; unfold maxUint64; lia). reflexivity.
Qed.

Lemma hex_digit_not_sign (c : ascii) :
  is_hex_digit c = true ->
  Ascii.eqb c "+" = false /\ Ascii.eqb c "-" = false.
Proof.
  intros Hc. split.
  - destruct (Ascii.eqb c "+") eqn:H; [| reflexivity].
    apply Ascii.eqb_eq in H. subst c. discriminate.
  - destruct (Ascii.eqb c "-") eqn:H; [| reflexivity].
    apply Ascii.eqb_eq in H. subst c. discriminate.
Qed.

(** X2.  [strTolease] accepts every non-empty string of hexadecimal
    digits, in either case, whose value fits [int64], with or without a
    leading plus sign, and with a leading minus sign down to the least
    [int64]; a value beyond that is a range error. *)
Theorem strTolease_complete (body : string) :
  body <> EmptyString ->
  all_hex body = true ->
  strTolease body =
    (if hex_value body <=? maxInt64 then inr (hex_value body)
     else inl strconv.ErrRange) /\
  strTolease (String "+" body) = strTolease body /\
  strTolease (String "-" body) =
    (if hex_value body <=? 2 ^ 63 then inr (- hex_value body)
     else inl strconv.ErrRange).
Proof.
  intros Hne Hall.
  pose proof (ParseUint_hex body Hne Hall) as Hu.
  assert (Hpos : 0 <= hex_value body).
  { unfold hex_value. apply hex_value_from_ge; [lia | assumption]. }
  assert (Hplain : strTolease body =
                   (if hex_value body <=? maxInt64 then inr (hex_value body)
                    else inl strconv.ErrRange)).
  { unfold strTolease, strconv.ParseInt.
    destruct body as [| c rest]; [congruence |].
    cbn [all_hex] in Hall. apply andb_prop in Hall. destruct Hall as [Hc _].
    destruct (hex_digit_not_sign c Hc) as [-> ->].
    rewrite Hu. unfold maxInt64, maxUint64 in *.
    destruct (hex_value (String c rest) <=? 2 ^ 64 - 1) eqn:H64.
    - cbv zeta. cbn [negb andb].
      destruct (hex_value (String c rest) <=? 2 ^ 63 - 1) eqn:H63.
      + apply Z.leb_le in H63.
        replace (2 ^ 63 <=? hex_value (String c rest)) with false
          by (symmetry; apply Z.leb_gt; lia).
        rewrite to_int64_small by lia. reflexivity.
      + apply Z.leb_gt in H63.
        replace (2 ^ 63 <=? hex_value (String c rest)) with true
          by (symmetry; apply Z.leb_le; lia).
        reflexivity.
    - apply Z.leb_gt in H64.
      replace (hex_value (String c rest) <=? 2 ^ 63 - 1) with false
        by (symmetry; apply Z.leb_gt; lia).
      reflexivity. }
  split; [exact Hplain |]. split.
  - rewrite Hplain. unfold strTolease, strconv.ParseInt.
    change (Ascii.eqb "+" "+") with true. cbv iota.
    rewrite Hu. unfold maxInt64, maxUint64 in *.
    destruct (hex_value body <=? 2 ^ 64 - 1) eqn:H64.
    + cbv zeta. cbn [negb andb].
      destruct (hex_value body <=? 2 ^ 63 - 1) eqn:H63.
      * apply Z.leb_le in H63.
        replace (2 ^ 63 <=? hex_value body) with false
          by (symmetry; apply Z.leb_gt; lia).
        rewrite to_int64_small by lia. reflexivity.
      * apply Z.leb_gt in H63.
        replace (2 ^ 63 <=? hex_value body) with true
          by (symmetry; apply Z.leb_le; lia).
        reflexivity.
    + apply Z.leb_gt in H64.
      replace (hex_value body <=? 2 ^ 63 - 1) with false
        by (symmetry; apply Z.leb_gt; lia).
      reflexivity.
  - unfold strTolease, strconv.ParseInt.
    change (Ascii.eqb "-" "+") with false.
    change (Ascii.eqb "-" "-") with true. cbv iota.
    rewrite Hu. unfold maxUint64 in *.
    destruct (hex_value body <=? 2 ^ 64 - 1) eqn:H64.
    + cbv zeta. cbn [negb andb].
      destruct (hex_value body <=? 2 ^ 63) eqn:H63.
      * apply Z.leb_le in H63.
        replace (2 ^ 63 <? hex_value body) with false
          by (symmetry; apply Z.ltb_ge; lia).
        f_equal.
        destruct (Z.eq_dec (hex_value body) 0) as [-> | Hnz]; [reflexivity |].
        destruct (Z.eq_dec (hex_value body) (2 ^ 63)) as [-> | Hnmax];
          [reflexivity |].
        rewrite (to_int64_small (hex_value body)) by lia.
        apply to_int64_neg. lia.
      * apply Z.leb_gt in H63.
        replace (2 ^ 63 <? hex_value body) with true
          by (symmetry; apply Z.ltb_lt; lia).
        reflexivity.
    + apply Z.leb_gt in H64.
      replace (hex_value body <=? 2 ^ 63) with false
        by (symmetry; apply Z.leb_gt; lia).
      reflexivity.
Qed.

Lemma strTolease_complete_witness :
  strTolease "7fffffffffffffff" = inr maxInt64 /\
  strTolease "-8000000000000000" = inr minInt64.
Proof.
  pose proof (strTolease_complete "7fffffffffffffff") as Hmax.
  pose proof (strTolease_complete "8000000000000000") as Hmin.
  destruct Hmax as (Hmax & _); [discriminate | reflexivity |].
  destruct Hmin as (_ & _ & Hmin); [discriminate | reflexivity |].
  split; [exact Hmax | exact Hmin].
Defined.

(** X3.  Two different lease ids never share a persisted record: the
    hexadecimal print is injective on [int64]. *)
Theorem Sprintf_x_injective (l1 l2 : LeaseID) :
  is_int64 l1 -> is_int64 l2 -> l1 <> l2 ->
  fmt.Sprintf_x l1 <> fmt.Sprintf_x l2.
Proof.
  intros H1 H2 Hne Heq.
  pose proof (strTolease_Sprintf_x l1 H1) as P1.
  pose proof (strTolease_Sprintf_x l2 H2) as P2.
  rewrite Heq in P1. congruence.
Qed.

Lemma Sprintf_x_injective_witness : fmt.Sprintf_x 255 <> fmt.Sprintf_x (-255).
Proof.
  apply Sprintf_x_injective; unfold is_int64, minInt64, maxInt64; lia.
Defined.

(* ===================================================================== *)
(** ** Invariants of the [cluster] struct *)

Lemma call_on_node {A} (P : cluster -> Prop) (r : rpc)
  (serve : etcd -> A * etcd) :
  frames (on_node P) (call r serve).
Proof. intros w H. unfold on_node in *. rewrite call_node. exact H. Qed.

Lemma update_on_node (P : cluster -> Prop) (f : cluster -> cluster) :
  (forall c, P c -> P (f c)) -> frames (on_node P) (update f).
Proof. intros Hf w H. apply Hf, H. Qed.

Ltac node_leaf tolerate :=
  idtac;
  match goal with
  | |- frames _ (call _ _) => apply call_on_node
  | |- frames _ (act _ _) => intros ? ?; assumption
  | |- frames _ (ready_notified _) => intros ? ?; assumption
  | |- frames _ (fun w => (Ok w, w, [])) => intros ? ?; assumption
  | |- frames _ (update _) => apply update_on_node; intros ? ?; tolerate
  end.

(** What follows for the methods built on [getClient] and [initLease] from
    the two of them keeping a property that no change of the membership
    view disturbs. *)
Section NodeInvariant.

Variable P : cluster -> Prop.
Variable allowed : op -> bool.

Hypothesis P_members : forall v c, P c -> P (set_cmembers v c).
Hypothesis P_getClient : frames (on_node P) getClient.
Hypothesis P_initLease : frames (on_node P) initLease.
Hypothesis P_closeClient :
  allowed OpCloseClient = true -> frames (on_node P) closeClient.
Hypothesis P_closeSession :
  allowed OpCloseSession = true -> frames (on_node P) closeSession.
Hypothesis P_startServer :
  forall r, allowed (OpStartServer r) = true ->
            frames (on_node P) (run_op (OpStartServer r)).
Hypothesis P_closeServer :
  allowed OpCloseServer = true -> frames (on_node P) closeServer.
Hypothesis P_Close : allowed OpClose = true -> frames (on_node P) Close.

Ltac inv_leaf :=
  idtac;
  first [ node_leaf ltac:(first [assumption | apply P_members; assumption])
        | apply P_getClient | apply P_initLease ].

Lemma getLease_inv : frames (on_node P) getLease.
Proof. unfold getLease. frame_go inv_leaf. Qed.

Lemma getServer_inv : frames (on_node P) getServer.
Proof. unfold getServer. frame_go inv_leaf. Qed.

Lemma PutUnderLease_inv (key val : string) :
  frames (on_node P) (PutUnderLease key val).
Proof.
  unfold PutUnderLease, client_Put.
  frame_go ltac:(idtac; first [inv_leaf | apply getLease_inv]).
Qed.

Lemma getSession_inv : frames (on_node P) getSession.
Proof.
  unfold getSession, concurrency_NewSession.
  frame_go ltac:(idtac; first [inv_leaf | apply getLease_inv]).
Qed.

Lemma closeEtcdServer_inv (s : handle) : frames (on_node P) (closeEtcdServer s).
Proof. unfold closeEtcdServer. frame_go inv_leaf. Qed.

Lemma monitorServer_inv (s : handle) (m : monitored) :
  frames (on_node P) (monitorServer s m).
Proof.
  unfold monitorServer.
  frame_go ltac:(idtac; first [inv_leaf | apply closeEtcdServer_inv]).
Qed.

Lemma syncStatus_inv : frames (on_node P) syncStatus.
Proof.
  unfold syncStatus.
  frame_go ltac:(idtac; first [inv_leaf | apply getServer_inv
                              | apply PutUnderLease_inv]).
Qed.

Lemma updateMembers_inv : frames (on_node P) updateMembers.
Proof. unfold updateMembers, client_MemberList. frame_go inv_leaf. Qed.

Lemma heartbeat_tick_inv : frames (on_node P) heartbeat_tick.
Proof.
  unfold heartbeat_tick.
  frame_go ltac:(idtac; first [apply syncStatus_inv | apply updateMembers_inv]).
Qed.

Lemma defrag_tick_inv (i : Duration) : frames (on_node P) (defrag_tick i).
Proof. unfold defrag_tick, client_Defragment. frame_go inv_leaf. Qed.

Lemma find_self_inv (me : member) (ms : list pb.Member) :
  frames (on_node P) (find_self me ms).
Proof.
  intros w H.
  destruct (find_self_cases me ms w)
    as [(-> & _) | [(-> & _) | (msg & line & -> & _)]]; exact H.
Qed.

Lemma addSelfToCluster_inv : frames (on_node P) addSelfToCluster.
Proof.
  unfold addSelfToCluster, client_MemberList, client_MemberAdd.
  frame_go ltac:(idtac; first [inv_leaf | apply find_self_inv]).
Qed.

Lemma PurgeMember_inv (memberName : string) :
  frames (on_node P) (PurgeMember memberName).
Proof.
  unfold PurgeMember, Get, client_Get, client_MemberList, client_MemberRemove,
    Lease_Revoke.
  frame_go inv_leaf.
Qed.

Lemma run_op_inv (o : op) :
  allowed o = true -> frames (on_node P) (run_op o).
Proof.
  destruct o; intros Ho.
  all: try (apply P_startServer; exact Ho).
  all: try (exact (P_closeClient Ho)).
  all: try (exact (P_closeSession Ho)).
  all: try (exact (P_closeServer Ho)).
  all: try (exact (P_Close Ho)).
  all: try (exact P_initLease).
  all: unfold run_op, void.
  all: frame_go ltac:(idtac; first
         [ inv_leaf
         | apply getLease_inv | apply getSession_inv | apply getServer_inv
         | apply monitorServer_inv | apply heartbeat_tick_inv
         | apply defrag_tick_inv | apply addSelfToCluster_inv
         | apply PurgeMember_inv ]).
Qed.

Lemma run_ops_inv (ops : list op) :
  forallb allowed ops = true -> frames (on_node P) (run_ops ops).
Proof.
  induction ops as [| o rest IH]; cbn [forallb run_ops]; intros Hops.
  - apply frames_ret.
  - apply andb_prop in Hops. destruct Hops as [Ho Hrest].
    apply frames_bind; [apply frames_try, run_op_inv, Ho |].
    intros _. apply IH, Hrest.
Qed.

End NodeInvariant.

(* ===================================================================== *)
(** ** The client *)

(** X4.  Without a cached client, [getClient] makes exactly one attempt to
    create one, with this node's peer URL alone when the cluster is forced
    new and with the known peer URLs otherwise.  On success the new client
    is cached and returned; on failure the error is the wrapped library
    error and the cache stays empty, so the next access tries again. *)
Theorem getClient_builds (w : world) :
  client (node w) = None ->
  let endpoints :=
    if ForceNewCluster (opt (node w))
    then [PeerURL (self (cmembers (node w)))]
    else knownPeerURLs (cmembers (node w)) in
  let o := getClient w in
  (exists ok,
     trace_of o =
       Log Info "client connect with endpoints: %v"
         :: Call (NewClient endpoints) ok
         :: (if ok then [Log Info "client is ready"] else [])) /\
  match result_of o with
  | Ok cli => cli = fresh (env w) /\ client (node (world_of o)) = Some cli
  | Err e => e = ErrCreateClient (ErrCall (NewClient endpoints)) /\
             client (node (world_of o)) = None
  | Panicked _ => False
  end.
Proof.
  intros Hnone. cbv zeta.
  unfold getClient, clientv3_New, alloc. go_unfold. cbn. rewrite Hnone. cbn.
  repeat (first [rewrite Hnone | go_case]; cbn in *).
  all: split; [first [exists true; reflexivity | exists false; reflexivity]
              | auto].
Qed.

Lemma getClient_builds_witness :
  result_of (getClient Sample.world_unreachable)
    = Err (ErrCreateClient (ErrCall (NewClient []))) /\
  client (node (world_of (getClient Sample.world_unreachable))) = None.
Proof.
  pose proof (getClient_builds Sample.world_unreachable eq_refl) as H.
  cbv zeta in H. destruct H as [_ H].
  change (result_of (getClient Sample.world_unreachable))
    with (@Err handle (ErrCreateClient (ErrCall (NewClient [])))) in H.
  destruct H as [_ H]. split; [reflexivity | exact H].
Defined.

Section ClientCached.

Variable cli : handle.

Let P : cluster -> Prop := fun c => client c = Some cli.

Lemma getClient_keeps_client : frames (on_node P) getClient.
Proof. intros w H. rewrite (getClient_cached w cli H). exact H. Qed.

Lemma initLease_keeps_client : frames (on_node P) initLease.
Proof.
  unfold initLease, Get, client_Get, Lease_Grant.
  frame_go ltac:(idtac; first
    [ node_leaf ltac:(assumption) | apply getLease_inv
    | apply getClient_keeps_client
    | apply PutUnderLease_inv ]).
Qed.

Lemma closeSession_keeps_client : frames (on_node P) closeSession.
Proof.
  unfold closeSession, session_Close.
  frame_go ltac:(idtac; node_leaf ltac:(assumption)).
Qed.

Lemma startServer_keeps_client (r : race) :
  frames (on_node P) (run_op (OpStartServer r)).
Proof.
  unfold run_op, void, startServer, serverStarter.
  frame_go ltac:(idtac; first
    [ node_leaf ltac:(assumption) | apply closeEtcdServer_inv ]).
Qed.

Lemma closeServer_keeps_client : frames (on_node P) closeServer.
Proof.
  unfold closeServer.
  frame_go ltac:(idtac; first
    [ node_leaf ltac:(assumption) | apply closeEtcdServer_inv ]).
Qed.

Lemma run_ops_keep_client (ops : list op) :
  forallb (fun o => negb (closes_client o)) ops = true ->
  frames (on_node P) (run_ops ops).
Proof.
  apply run_ops_inv.
  - intros v c H. exact H.
  - exact getClient_keeps_client.
  - exact initLease_keeps_client.
  - discriminate.
  - intros _. exact closeSession_keeps_client.
  - intros r _. apply startServer_keeps_client.
  - intros _. exact closeServer_keeps_client.
  - discriminate.
Qed.

End ClientCached.

(** X5.  Once [getClient] has succeeded, the client it returned stays
    cached through every sequence of operations other than [closeClient]
    and [Close]: a later [getClient] returns the same handle and makes no
    call. *)
Theorem getClient_cached_until_closed
  (w : world) (cli : handle) (ops : list op) :
  result_of (getClient w) = Ok cli ->
  forallb (fun o => negb (closes_client o)) ops = true ->
  let w' := world_of (run_ops ops (world_of (getClient w))) in
  getClient w' = (Ok cli, w', []).
Proof.
  intros Hok Hops w'. apply getClient_cached.
  apply (run_ops_keep_client cli ops Hops).
  pose proof (getClient_result w) as H. rewrite Hok in H. exact H.
Qed.

Lemma getClient_cached_until_closed_witness :
  let ops := [OpInitLease; OpGetSession; OpHeartbeatTick; OpCloseServer;
              OpPurgeMember "node2"] in
  let w' := world_of (run_ops ops (world_of (getClient Sample.world0))) in
  getClient w' = (Ok 1%nat, w', []).
Proof.
  cbv zeta.
  apply (getClient_cached_until_closed Sample.world0 1%nat); reflexivity.
Defined.

(** X6.  [closeClient] on a cached client issues one close call and clears
    the cache whether or not that call fails (a failure is only logged);
    the next [getClient] then creates a new client. *)
Theorem closeClient_then_rebuild (w : world) (cli : handle) :
  client (node w) = Some cli ->
  let o := closeClient w in
  result_of o = Ok tt /\
  client (node (world_of o)) = None /\
  (exists ok,
     trace_of o =
       Call (ClientClose cli) ok
         :: (if ok then [] else [Log Error "close client failed: %v"])) /\
  count_of is_new_client (trace_of (getClient (world_of o))) = 1%nat.
Proof.
  intros Hc. cbv zeta.
  assert (Hrun : result_of (closeClient w) = Ok tt /\
                 client (node (world_of (closeClient w))) = None /\
                 exists ok,
                   trace_of (closeClient w) =
                     Call (ClientClose cli) ok
                       :: (if ok then []
                           else [Log Error "close client failed: %v"])).
  { unfold closeClient, client_Close. go_unfold. cbn. rewrite Hc. cbn.
    go_cases; repeat split;
      first [exists true; reflexivity | exists false; reflexivity]. }
  destruct Hrun as (Hres & Hnone & Htrace).
  repeat split; auto.
  destruct (getClient_builds _ Hnone) as [[ok Ht] _].
  rewrite Ht. unfold count_of. destruct ok; reflexivity.
Qed.

Lemma closeClient_then_rebuild_witness :
  client (node (world_of (closeClient Sample.world_ready))) = None /\
  count_of is_new_client
    (trace_of (getClient (world_of (closeClient Sample.world_ready)))) = 1%nat.
Proof.
  pose proof (closeClient_then_rebuild Sample.world_ready 1%nat eq_refl) as H.
  cbv zeta in H. destruct H as (_ & Hnone & _ & Hcount).
  split; [exact Hnone | exact Hcount].
Defined.

(* ===================================================================== *)
(** ** The lease, once cached *)

Lemma initLease_cached (w : world) (l : LeaseID) :
  lease (node w) = Some l -> initLease w = (Ok tt, w, []).
Proof.
  intros H. unfold initLease, getLease. go_unfold. cbn. rewrite H. reflexivity.
Qed.

Section LeaseCached.

Variable l : LeaseID.

Let P : cluster -> Prop := fun c => lease c = Some l.

Lemma getClient_keeps_lease : frames (on_node P) getClient.
Proof.
  unfold getClient, clientv3_New.
  frame_go ltac:(idtac; node_leaf ltac:(assumption)).
Qed.

Lemma initLease_keeps_lease : frames (on_node P) initLease.
Proof. intros w H. rewrite (initLease_cached w l H). exact H. Qed.

Lemma closeClient_keeps_lease : frames (on_node P) closeClient.
Proof.
  unfold closeClient, client_Close.
  frame_go ltac:(idtac; node_leaf ltac:(assumption)).
Qed.

Lemma closeSession_keeps_lease : frames (on_node P) closeSession.
Proof.
  unfold closeSession, session_Close.
  frame_go ltac:(idtac; node_leaf ltac:(assumption)).
Qed.

Lemma startServer_keeps_lease (r : race) :
  frames (on_node P) (run_op (OpStartServer r)).
Proof.
  unfold run_op, void, startServer, serverStarter.
  frame_go ltac:(idtac; first
    [ node_leaf ltac:(assumption) | apply closeEtcdServer_inv ]).
Qed.

Lemma closeServer_keeps_lease : frames (on_node P) closeServer.
Proof.
  unfold closeServer.
  frame_go ltac:(idtac; first
    [ node_leaf ltac:(assumption) | apply closeEtcdServer_inv ]).
Qed.

Lemma Close_keeps_lease : frames (on_node P) Close.
Proof.
  unfold Close, close_done.
  frame_go ltac:(idtac; first
    [ node_leaf ltac:(assumption) | apply closeSession_keeps_lease
    | apply closeClient_keeps_lease | apply closeServer_keeps_lease ]).
Qed.

Lemma run_ops_keep_lease (ops : list op) : frames (on_node P) (run_ops ops).
Proof.
  apply (run_ops_inv P (fun _ => true)).
  - intros v c H. exact H.
  - exact getClient_keeps_lease.
  - exact initLease_keeps_lease.
  - intros _. exact closeClient_keeps_lease.
  - intros _. exact closeSession_keeps_lease.
  - intros r _. apply startServer_keeps_lease.
  - intros _. exact closeServer_keeps_lease.
  - intros _. exact Close_keeps_lease.
  - induction ops; [reflexivity | assumption].
Qed.

End LeaseCached.

(** X7.  A cached lease is never replaced or dropped: through every
    sequence of operations, [Close] included, [getLease] keeps returning
    the same id and [initLease] returns at once without a call. *)
Theorem lease_never_replaced (w : world) (l : LeaseID) (ops : list op) :
  lease (node w) = Some l ->
  let w' := world_of (run_ops ops w) in
  getLease w' = (Ok l, w', []) /\ initLease w' = (Ok tt, w', []).
Proof.
  intros Hl w'.
  pose proof (run_ops_keep_lease l ops w Hl) as H. unfold on_node in H.
  fold w' in H. split.
  - rewrite getLease_spec, H. reflexivity.
  - apply (initLease_cached w' l H).
Qed.

Lemma lease_never_replaced_witness :
  let ops := [OpGetSession; OpCloseClient; OpHeartbeatTick; OpClose;
              OpInitLease] in
  let w' := world_of (run_ops ops Sample.world_ready) in
  getLease w' = (Ok 8002, w', []).
Proof.
  cbv zeta.
  apply (lease_never_replaced Sample.world_ready 8002). reflexivity.
Defined.

(** X8.  A lease record that does not parse makes [initLease] fail with
    the parse error after the read alone: it logs the line marked BUG,
    caches nothing and asks for no new lease. *)
Theorem initLease_corrupt_record
  (w : world) (s : string) (l0 : LeaseID) (err : strconv.NumError) :
  lease (node w) = None ->
  kv (env w) !! Lease (layout (node w)) = Some (s, l0) ->
  strTolease s = inl err ->
  fails (env w) (clock (env w)) (KvGet (Lease (layout (node w)))) = false ->
  initLease w =
    (Err (ErrParseLease err),
     {| node := node w; env := with_clock (S (clock (env w))) (env w) |},
     [Call (KvGet (Lease (layout (node w)))) true;
      Log Error "BUG: parse lease %s failed: %v"]).
Proof.
  intros Hnone Hkv Hparse Hget. lease_unfold.
  rewrite Hnone. cbn. rewrite Hget. cbn. rewrite Hkv. cbn.
  rewrite Hparse. cbn. reflexivity.
Qed.

(** X9.  How a run of [initLease] without a cached lease can end: with nil
    and a lease in the cache; with the wrapped error of the persisting
    write and the granted lease in the cache; or with another error and no
    lease in the cache.  It never panics. *)
Theorem initLease_outcome (w : world) :
  lease (node w) = None ->
  let o := initLease w in
  match result_of o with
  | Ok _ => exists l, lease (node (world_of o)) = Some l
  | Err (ErrPutLease key _) =>
      key = Lease (layout (node w)) /\
      lease (node (world_of o))
        = Some (lease_ids (env (world_of (getClient (world_of
                                 (Get (Lease (layout (node w))) w)))))
                          (clock (env (world_of (getClient (world_of
                                 (Get (Lease (layout (node w))) w)))))))
  | Err _ => lease (node (world_of o)) = None
  | Panicked _ => False
  end.
Proof.
  intros Hnone. cbv zeta. lease_unfold.
  repeat (first [rewrite Hnone | go_case]; cbn in *).
  all: try solve [eauto | split; reflexivity].
Qed.

(** X10.  A persisting write that failed is not tried again: the lease is
    cached, so every later [initLease] returns at once, and the lease key
    still has no record. *)
Theorem initLease_failed_write_not_retried
  (w : world) (val : string) (l : LeaseID) :
  In (Call (KvPut (Lease (layout (node w))) val l) false)
     (trace_of (initLease w)) ->
  let w1 := world_of (initLease w) in
  initLease w1 = (Ok tt, w1, []) /\
  lease (node w1) = Some l /\
  kv (env w1) !! Lease (layout (node w)) = None.
Proof.
  intros Hin. cbv zeta.
  assert (H : lease (node (world_of (initLease w))) = Some l /\
              kv (env (world_of (initLease w))) !! Lease (layout (node w))
                = None).
  { revert Hin. lease_unfold.
    go_cases; intros Hin; cbn in Hin;
      try (exfalso; intuition discriminate).
    all: repeat match goal with
                | H : _ \/ _ |- _ => destruct H as [H | H]; try discriminate
                | H : False |- _ => destruct H
                end.
    all: simplify_eq.
    all: split; [reflexivity |].
    all: match goal with
         | H : fst <$> ?x = None |- ?x = None =>
             destruct x; [discriminate | reflexivity]
         end. }
  destruct H as [Hl Hkv].
  split; [apply (initLease_cached _ l Hl) |]. split; assumption.
Qed.

Lemma initLease_corrupt_record_witness :
  result_of (initLease Scenario.world_corrupt)
    = Err (ErrParseLease strconv.ErrSyntax) /\
  lease (node (world_of (initLease Scenario.world_corrupt))) = None.
Proof.
  rewrite (initLease_corrupt_record Scenario.world_corrupt "lease" 0
             strconv.ErrSyntax eq_refl eq_refl eq_refl eq_refl).
  split; reflexivity.
Defined.

Lemma initLease_outcome_witness :
  exists l, lease (node (world_of (initLease Sample.world0))) = Some l.
Proof.
  pose proof (initLease_outcome Sample.world0 eq_refl) as H. cbv zeta in H.
  change (result_of (initLease Sample.world0)) with (@Ok unit tt) in H.
  exact H.
Defined.

Lemma initLease_failed_write_not_retried_witness :
  let w1 := world_of (initLease Sample.world_read_only) in
  initLease w1 = (Ok tt, w1, []) /\
  kv (env w1) !! "/leases/node1" = None.
Proof.
  pose proof (initLease_failed_write_not_retried
                Sample.world_read_only "1f42" 8002) as H.
  cbv zeta in *. destruct H as (Hrun & _ & Hkv).
  - vm_compute. auto 10.
  - split; [exact Hrun | exact Hkv].
Defined.

(* ===================================================================== *)
(** ** The session *)

(** X11.  [getSession] never creates a lease: without a cached lease and
    session it fails, with the not-ready error of [getLease] or with the
    error of creating the client, and no session is constructed.  The
    client it may have created on the way stays cached. *)
Theorem getSession_needs_lease (w : world) :
  session (node w) = None ->
  lease (node w) = None ->
  let o := getSession w in
  (result_of o = Err ErrLeaseNotReady \/
   exists cause, result_of o = Err (ErrCreateClient cause)) /\
  none_of is_new_session (trace_of o) /\
  lease (node (world_of o)) = None /\
  (result_of o = Err ErrLeaseNotReady ->
   exists cli, client (node (world_of o)) = Some cli).
Proof.
  intros Hs Hl. cbv zeta.
  unfold getSession, getClient, getLease, concurrency_NewSession,
    clientv3_New, alloc, none_of.
  go_unfold. cbn.
  repeat (first [rewrite Hs | rewrite Hl | go_case]; cbn in *).
  all: repeat split; eauto; try discriminate.
Qed.

Lemma getSession_needs_lease_witness :
  none_of is_new_session (trace_of (getSession Sample.world0)) /\
  exists cli, client (node (world_of (getSession Sample.world0))) = Some cli.
Proof.
  pose proof (getSession_needs_lease Sample.world0 eq_refl eq_refl) as H.
  cbv zeta in H. destruct H as (_ & Hnone & _ & Hcli).
  split; [exact Hnone | apply Hcli; reflexivity].
Defined.

Section SessionNil.

Let P : cluster -> Prop := fun c => session c = None.

Lemma getClient_keeps_session_nil : frames (on_node P) getClient.
Proof.
  unfold getClient, clientv3_New.
  frame_go ltac:(idtac; node_leaf ltac:(assumption)).
Qed.

Lemma initLease_keeps_session_nil : frames (on_node P) initLease.
Proof.
  unfold initLease, Get, client_Get, Lease_Grant.
  frame_go ltac:(idtac; first
    [ node_leaf ltac:(assumption) | apply getLease_inv
    | apply getClient_keeps_session_nil
    | apply PutUnderLease_inv ]).
Qed.

Lemma closeClient_keeps_session_nil : frames (on_node P) closeClient.
Proof.
  unfold closeClient, client_Close.
  frame_go ltac:(idtac; node_leaf ltac:(assumption)).
Qed.

Lemma closeSession_keeps_session_nil : frames (on_node P) closeSession.
Proof. intros w _. apply closeSession_safe. Qed.

Lemma startServer_keeps_session_nil (r : race) :
  frames (on_node P) (run_op (OpStartServer r)).
Proof.
  unfold run_op, void, startServer, serverStarter.
  frame_go ltac:(idtac; first
    [ node_leaf ltac:(assumption) | apply closeEtcdServer_inv ]).
Qed.

Lemma closeServer_keeps_session_nil : frames (on_node P) closeServer.
Proof.
  unfold closeServer.
  frame_go ltac:(idtac; first
    [ node_leaf ltac:(assumption) | apply closeEtcdServer_inv ]).
Qed.

Lemma Close_keeps_session_nil : frames (on_node P) Close.
Proof.
  unfold Close, close_done.
  frame_go ltac:(idtac; first
    [ node_leaf ltac:(assumption) | apply closeSession_keeps_session_nil
    | apply closeClient_keeps_session_nil
    | apply closeServer_keeps_session_nil ]).
Qed.

Lemma run_ops_keep_session_nil (ops : list op) :
  frames (on_node P) (run_ops ops).
Proof.
  apply (run_ops_inv P (fun _ => true)).
  - intros v c H. exact H.
  - exact getClient_keeps_session_nil.
  - exact initLease_keeps_session_nil.
  - intros _. exact closeClient_keeps_session_nil.
  - intros _. exact closeSession_keeps_session_nil.
  - intros r _. apply startServer_keeps_session_nil.
  - intros _. exact closeServer_keeps_session_nil.
  - intros _. exact Close_keeps_session_nil.
  - induction ops; [reflexivity | assumption].
Qed.

End SessionNil.

(** X12.  No operation ever fills the session field: from a cluster whose
    session is nil it is nil after every sequence of operations, so
    [closeSession] finds nothing to close and the sessions built by
    [getSession] are never closed by it. *)
Theorem session_never_cached (w : world) (ops : list op) :
  session (node w) = None ->
  let w' := world_of (run_ops ops w) in
  session (node w') = None /\ closeSession w' = (Ok tt, w', []).
Proof.
  intros Hs w'.
  pose proof (run_ops_keep_session_nil ops w Hs) as H. unfold on_node in H.
  fold w' in H. split; [exact H |]. apply closeSession_safe, H.
Qed.

Lemma session_never_cached_witness :
  let ops := [OpInitLease; OpGetSession; OpGetSession; OpHeartbeatTick] in
  let w' := world_of (run_ops ops Sample.world0) in
  session (node w') = None /\ closeSession w' = (Ok tt, w', []).
Proof.
  cbv zeta. apply (session_never_cached Sample.world0). reflexivity.
Defined.

(* ===================================================================== *)
(** ** The embedded server *)

Lemma startServer_starting (w : world) (s : handle) :
  result_of (startServer w) = Ok (Starting s) ->
  server (node w) = None /\
  s = fresh (env w) /\
  node (world_of (startServer w)) = node w /\
  ready (env (world_of (startServer w))) = ready (env w).
Proof.
  unfold startServer, alloc. go_unfold. cbn.
  go_cases; intros H; simplify_eq; auto.
Qed.

(** X13.  A server that does not become ready in time is hard-stopped, not
    closed gracefully, its listeners are closed, the [timeout] channel is
    closed, and it is never cached: [getServer] still fails with the
    not-ready error. *)
Theorem startServer_timeout_hard_stops (w : world) (s : handle) :
  result_of (startServer w) = Ok (Starting s) ->
  s ∉ ready (env w) ->
  let o := serverStarter s RaceTimeout (world_of (startServer w)) in
  result_of o = Ok TimeoutClosed /\
  trace_of o =
    [Call (ServerHardStop s) true; Log Info "hard stop server";
     Call (ListenersClose s) true] /\
  s ∈ closed (env (world_of o)) /\
  result_of (getServer (world_of o)) = Err ErrServerNotReady.
Proof.
  intros Hstart Hnot.
  destruct (startServer_starting w s Hstart) as (Hnone & Hfresh & Hnode & Hready).
  cbv zeta. rewrite getServer_spec.
  unfold serverStarter, closeEtcdServer, close_handle. go_unfold. cbn.
  rewrite Hready. rewrite bool_decide_eq_false_2 by assumption. cbn.
  rewrite Hnode, Hnone.
  repeat split; try reflexivity.
  apply elem_of_union. left. apply elem_of_singleton. reflexivity.
Qed.

Lemma startServer_timeout_hard_stops_witness :
  result_of (serverStarter 1%nat RaceTimeout
               (world_of (startServer Sample.world0))) = Ok TimeoutClosed /\
  result_of (getServer
               (world_of (serverStarter 1%nat RaceTimeout
                            (world_of (startServer Sample.world0)))))
    = Err ErrServerNotReady.
Proof.
  pose proof (startServer_timeout_hard_stops Sample.world0 1%nat eq_refl) as H.
  cbv zeta in H. destruct H as (Hres & _ & _ & Hget).
  - cbn. set_solver.
  - split; [exact Hres | exact Hget].
Defined.

(** X14.  A server that becomes ready is cached: [getServer] returns it
    and a further [startServer] starts nothing and hands back the closed
    [done] channel.  [closeServer] then closes it gracefully, without a
    hard stop, and clears the cache; a [CloseServer] after that does
    nothing but signal the wait group. *)
Theorem startServer_ready_then_close (w : world) (s : handle) :
  result_of (startServer w) = Ok (Starting s) ->
  let o := serverStarter s RaceReady (world_of (startServer w)) in
  let w2 := world_of o in
  let w3 := world_of (closeServer w2) in
  result_of o = Ok DoneClosed /\
  getServer w2 = (Ok s, w2, []) /\
  startServer w2 = (Ok AlreadyDone, w2, []) /\
  trace_of (closeServer w2)
    = [Call (ServerClose s) true; Call (ListenersClose s) true] /\
  result_of (getServer w3) = Err ErrServerNotReady /\
  CloseServer w3 = (Ok tt, w3, [WgDone]).
Proof.
  intros Hstart. cbv zeta.
  split; [reflexivity |].
  assert (Hs : server (node (world_of (serverStarter s RaceReady
                                         (world_of (startServer w)))))
               = Some s) by reflexivity.
  assert (Hr : s ∈ ready (env (world_of (serverStarter s RaceReady
                                           (world_of (startServer w))))))
    by (cbn; set_solver).
  generalize dependent (world_of (serverStarter s RaceReady
                                    (world_of (startServer w)))).
  intros w2 Hs Hr.
  split; [rewrite getServer_spec, Hs; reflexivity |].
  split.
  { unfold startServer. go_unfold. cbn. rewrite Hs. reflexivity. }
  assert (Hclose : trace_of (closeServer w2)
                   = [Call (ServerClose s) true; Call (ListenersClose s) true]).
  { unfold closeServer, closeEtcdServer. go_unfold. cbn. rewrite Hs. cbn.
    rewrite bool_decide_eq_true_2 by exact Hr. reflexivity. }
  split; [exact Hclose |].
  pose proof (closeServer_safe w2) as (_ & Hnil & _).
  split; [rewrite getServer_spec, Hnil; reflexivity |].
  unfold CloseServer, defer_.
  rewrite (proj2 (proj2 (closeServer_safe _)) Hnil). reflexivity.
Qed.

Lemma startServer_ready_then_close_witness :
  let w2 := world_of (serverStarter 1%nat RaceReady
                        (world_of (startServer Sample.world0))) in
  getServer w2 = (Ok 1%nat, w2, []) /\
  trace_of (closeServer w2)
    = [Call (ServerClose 1%nat) true; Call (ListenersClose 1%nat) true].
Proof.
  pose proof (startServer_ready_then_close Sample.world0 1%nat eq_refl) as H.
  cbv zeta in *. destruct H as (_ & Hget & _ & Hclose & _).
  split; [exact Hget | exact Hclose].
Defined.

(** X15.  Once [closeServer] has cleared the cache, a server error seen by
    the monitor is not handled: building the log line reads the server
    through the nil field, so the monitor panics before it stops
    anything. *)
Theorem monitorServer_after_closeServer_panics (w : world) (s : handle) :
  let w' := world_of (closeServer w) in
  monitorServer s ServerErr w' = (Panicked NilDereference, w', []).
Proof.
  cbv zeta. pose proof (closeServer_safe w) as (_ & Hnil & _).
  unfold monitorServer. go_unfold. cbn -[closeServer].
  rewrite Hnil. reflexivity.
Qed.

(* ===================================================================== *)
(** ** A defragmentation tick with a client *)

(** X16.  With a cached client a tick issues exactly one defragmentation
    request, for this node's own peer URL.  The interval it leaves depends
    on that request alone, not on the interval before: the failed interval
    (1m) when the request failed, the normal one (1h) when it succeeded.
    The tick changes nothing in the [cluster] struct. *)
Theorem defrag_tick_backoff (w : world) (cli : handle) (i : Duration) :
  client (node w) = Some cli ->
  let o := defrag_tick i w in
  let url := ClusterPeerURL (opt (node w)) in
  node (world_of o) = node w /\
  ((result_of o = Ok defragNormalInterval /\
    trace_of o = [Call (Defragment url) true; Log Info "defrag successfully"])
   \/
   (result_of o = Ok defragFailedInterval /\
    trace_of o = [Call (Defragment url) false; Log Error "defrag failed: %v"])).
Proof.
  intros Hc. cbv zeta.
  unfold defrag_tick, client_Defragment, getClient.
  go_unfold. cbn. rewrite Hc. cbn.
  go_cases; split; auto.
Qed.

Lemma defrag_tick_backoff_witness :
  result_of (defrag_tick defragNormalInterval Scenario.world_no_defrag)
    = Ok defragFailedInterval /\
  result_of (defrag_tick defragFailedInterval Sample.world_ready)
    = Ok defragNormalInterval.
Proof.
  pose proof (defrag_tick_backoff Scenario.world_no_defrag 1%nat
                defragNormalInterval eq_refl) as H1.
  pose proof (defrag_tick_backoff Sample.world_ready 1%nat
                defragFailedInterval eq_refl) as H2.
  cbv zeta in *.
  destruct H1 as [_ [[H1 _] | [H1 _]]]; [vm_compute in H1; discriminate |].
  destruct H2 as [_ [[H2 _] | [H2 _]]]; [| vm_compute in H2; discriminate].
  split; [exact H1 | exact H2].
Defined.

(* ===================================================================== *)
(** ** Joining, when there is no conflict *)

(** X17.  Join is idempotent for a node the store already lists: when the
    member list holds this node (same name and id) and no conflicting
    entry, the join protocol issues no member-add, leaves the membership
    view and the store's member list as they are, and returns nil unless a
    call fails; the same holds for the next run. *)
Theorem addSelfToCluster_already_member (w : world) (m : pb.Member) :
  In m (member_list (env w)) ->
  is_self (self (cmembers (node w))) m = true ->
  Forall (fun m' => conflicts (self (cmembers (node w))) m' = false)
         (member_list (env w)) ->
  let o := addSelfToCluster w in
  none_of is_member_add (trace_of o) /\
  cmembers (node (world_of o)) = cmembers (node w) /\
  member_list (env (world_of o)) = member_list (env w) /\
  (all_calls_ok (trace_of o) -> result_of o = Ok tt) /\
  none_of is_member_add (trace_of (addSelfToCluster (world_of o))).
Proof.
  intros Hin Hself Hnoconf. cbv zeta.
  assert (Hfound : forall w',
             find_self (self (cmembers (node w))) (member_list (env w)) w'
             = (Ok true, w', [])).
  { intros w'.
    destruct (find_self_cases (self (cmembers (node w)))
                (member_list (env w)) w')
      as [(Heq & _) | [(_ & HF) | (msg & line & _ & _ & m' & Hin' & Hc)]].
    - exact Heq.
    - rewrite List.Forall_forall in HF. destruct (HF m Hin). congruence.
    - rewrite List.Forall_forall in Hnoconf. specialize (Hnoconf m' Hin').
      congruence. }
  assert (Hrun : forall w0,
             self (cmembers (node w0)) = self (cmembers (node w)) ->
             member_list (env w0) = member_list (env w) ->
             none_of is_member_add (trace_of (addSelfToCluster w0)) /\
             cmembers (node (world_of (addSelfToCluster w0)))
               = cmembers (node w0) /\
             member_list (env (world_of (addSelfToCluster w0)))
               = member_list (env w0) /\
             (all_calls_ok (trace_of (addSelfToCluster w0)) ->
              result_of (addSelfToCluster w0) = Ok tt)).
  { intros w0 Hme Hlist. join_unfold.
    repeat (first [rewrite Hme | rewrite Hlist | rewrite Hfound | go_case];
            cbn in *).
    all: repeat split; auto; try discriminate. }
  destruct (Hrun w eq_refl eq_refl) as (Hadd & Hview & Hlist & Hok).
  repeat split; auto.
  apply Hrun; [rewrite Hview; reflexivity | exact Hlist].
Qed.

Lemma addSelfToCluster_already_member_witness :
  result_of (addSelfToCluster Scenario.world_listed) = Ok tt /\
  none_of is_member_add (trace_of (addSelfToCluster Scenario.world_listed)).
Proof.
  pose proof (addSelfToCluster_already_member Scenario.world_listed
                Scenario.node1) as H.
  cbv zeta in H. destruct H as (Hadd & _ & _ & Hok & _).
  - cbn. auto.
  - reflexivity.
  - repeat constructor.
  - split; [apply Hok; vm_compute; reflexivity | exact Hadd].
Defined.

(** X18.  For a node the store does not list, with no conflicting entry
    either, a join whose calls succeed issues exactly one member-add,
    carrying this node's own peer URL, after the member list was read, and
    returns nil. *)
Theorem addSelfToCluster_adds (w : world) :
  Forall (fun m => is_self (self (cmembers (node w))) m = false /\
                   conflicts (self (cmembers (node w))) m = false)
         (member_list (env w)) ->
  let o := addSelfToCluster w in
  all_calls_ok (trace_of o) ->
  result_of o = Ok tt /\
  count_of is_member_add (trace_of o) = 1%nat /\
  trace_of o =
    trace_of (getClient w)
      ++ [Call MemberList true;
          Call (MemberAdd [ClusterPeerURL (opt (node w))]) true;
          Log Info "add %s to member list"].
Proof.
  intros Hnone. cbv zeta.
  assert (Hmiss : forall w',
             find_self (self (cmembers (node w))) (member_list (env w)) w'
             = (Ok false, w', [])).
  { intros w'.
    destruct (find_self_cases (self (cmembers (node w)))
                (member_list (env w)) w')
      as [(_ & m' & Hin' & Hs) | [(Heq & _)
         | (msg & line & _ & _ & m' & Hin' & Hc)]].
    - rewrite List.Forall_forall in Hnone. destruct (Hnone m' Hin'). congruence.
    - exact Heq.
    - rewrite List.Forall_forall in Hnone. destruct (Hnone m' Hin'). congruence. }
  join_unfold. unfold count_of.
  repeat (first [rewrite Hmiss | go_case]; cbn in *).
  all: intros Hok; try discriminate.
  all: repeat split; reflexivity.
Qed.

Lemma addSelfToCluster_adds_witness :
  result_of (addSelfToCluster Sample.world_member_only) = Ok tt /\
  count_of is_member_add (trace_of (addSelfToCluster Sample.world_member_only))
    = 1%nat.
Proof.
  pose proof (addSelfToCluster_adds Sample.world_member_only) as H.
  cbv zeta in H. destruct H as (Hres & Hcount & _).
  - repeat constructor.
  - vm_compute. reflexivity.
  - split; [exact Hres | exact Hcount].
Defined.

(* ===================================================================== *)
(** ** Purging a listed member *)

(** X19.  When the member-remove of a purge fails, the purge returns that
    error at once: the member's lease key is not read and its lease is not
    revoked. *)
Theorem PurgeMember_remove_fails (w : world) (memberName : string) (id : Z) :
  In (Call (MemberRemove id) false) (trace_of (PurgeMember memberName w)) ->
  let o := PurgeMember memberName w in
  result_of o = Err (ErrCall (MemberRemove id)) /\
  none_of is_kv_get (trace_of o) /\
  none_of is_lease_revoke (trace_of o) /\
  kv (env (world_of o)) = kv (env w) /\
  member_list (env (world_of o)) = member_list (env w).
Proof.
  cbv zeta. purge_unfold.
  destruct (find_id memberName (member_list (env w))) as [id' |] eqn:Hid.
  all: go_cases; intros Hin; cbn in Hin.
  all: repeat match goal with
              | H : _ \/ _ |- _ => destruct H as [H | H]; try discriminate
              | H : False |- _ => destruct H
              end.
  all: simplify_eq; repeat split; reflexivity.
Qed.

Lemma PurgeMember_remove_fails_witness :
  result_of (PurgeMember "node2" Scenario.world_no_remove)
    = Err (ErrCall (MemberRemove 2)) /\
  none_of is_lease_revoke (trace_of (PurgeMember "node2" Scenario.world_no_remove)).
Proof.
  pose proof (PurgeMember_remove_fails Scenario.world_no_remove "node2" 2) as H.
  cbv zeta in H. destruct H as (Hres & _ & Hrev & _).
  - vm_compute. auto 10.
  - split; [exact Hres | exact Hrev].
Defined.

(** X20.  A purge of a listed member with a well-formed lease record,
    none of whose calls fails, lists the members, removes the last listed
    member of that name, reads the member's lease key and revokes the
    lease recorded there, in this order, and returns nil; afterwards the
    store lists no member with the removed id and holds no key attached to
    the revoked lease. *)
Theorem PurgeMember_listed
  (w : world) (memberName s : string) (id : Z) (l l0 : LeaseID) :
  find_id memberName (member_list (env w)) = Some id ->
  kv (env w) !! OtherLease (layout (node w)) memberName = Some (s, l0) ->
  strTolease s = inr l ->
  let o := PurgeMember memberName w in
  all_calls_ok (trace_of o) ->
  result_of o = Ok tt /\
  trace_of o =
    trace_of (getClient w)
      ++ [Call MemberList true; Call (MemberRemove id) true;
          Call (KvGet (OtherLease (layout (node w)) memberName)) true;
          Call (LeaseRevoke l) true] /\
  Forall (fun m => pb.ID m <> id) (member_list (env (world_of o))) /\
  (forall key val, kv (env (world_of o)) !! key = Some (val, l) -> False).
Proof.
  intros Hid Hkv Hparse. cbv zeta. purge_unfold.
  repeat (first [rewrite Hid | rewrite Hkv | rewrite Hparse | go_case];
          cbn in *).
  all: intros Hok; try discriminate.
  all: repeat split; try reflexivity.
  all: try (apply List.Forall_forall; intros m Hm;
            apply filter_In in Hm; destruct Hm as [_ Hm];
            apply negb_true_iff, Z.eqb_neq in Hm; exact Hm).
  all: intros key val Hlook;
    apply map_lookup_filter_Some in Hlook; destruct Hlook as [_ Hl'];
    cbn in Hl'; congruence.
Qed.

Lemma PurgeMember_listed_witness :
  result_of (PurgeMember "node2" Scenario.world_member_and_lease) = Ok tt /\
  member_list (env (world_of (PurgeMember "node2"
                                Scenario.world_member_and_lease))) = [].
Proof.
  pose proof (PurgeMember_listed Scenario.world_member_and_lease
                "node2" "1f40" 2 8000 8000 eq_refl eq_refl eq_refl) as H.
  cbv zeta in H. destruct H as (Hres & _).
  - vm_compute. reflexivity.
  - split; [exact Hres | reflexivity].
Defined.

(* ===================================================================== *)
(** ** What a heartbeat tick writes *)

Ltac split_in H :=
  cbn in H;
  repeat match goal with
         | H' : _ \/ _ |- _ => destruct H' as [H' | H']
         | H' : False |- _ => destruct H'
         end.

Lemma syncStatus_writes_only_status (w : world) (ev : event) :
  In ev (trace_of (syncStatus w)) ->
  store_mutation ev = true ->
  exists val l ok,
    ev = Call (KvPut (StatusMemberKey (layout (node w))) val l) ok /\
    lease (node w) = Some l.
Proof.
  unfold syncStatus, PutUnderLease, client_Put, getLease, getServer.
  go_unfold. cbn.
  go_cases; intros Hin; split_in Hin.
  all: intros Hmut; subst ev; try discriminate.
  all: do 3 eexists; split; reflexivity.
Qed.

Lemma updateMembers_mutates_nothing (w : world) :
  none_of store_mutation (trace_of (updateMembers w)).
Proof.
  unfold updateMembers, client_MemberList, getClient, clientv3_New, alloc,
    none_of.
  go_unfold. cbn. go_cases; reflexivity.
Qed.

(** X21.  The only change a heartbeat tick makes to the store is the write
    of the status document: every mutating call of a tick is a put to this
    node's status key under the lease cached when the tick began.  A tick
    never grants or revokes a lease and never adds or removes a member;
    without a cached lease it writes nothing. *)
Theorem heartbeat_tick_writes_only_status (w : world) (ev : event) :
  In ev (trace_of (heartbeat_tick w)) ->
  store_mutation ev = true ->
  exists val l ok,
    ev = Call (KvPut (StatusMemberKey (layout (node w))) val l) ok /\
    lease (node w) = Some l.
Proof.
  rewrite heartbeat_tick_run. unfold trace_of at 1. cbn [snd].
  rewrite !in_app_iff. intros [Hin | [Hin | [Hin | Hin]]] Hmut.
  - exact (syncStatus_writes_only_status w ev Hin Hmut).
  - unfold logged in Hin. destruct (result_of (syncStatus w));
      split_in Hin; subst ev; discriminate.
  - exfalso. pose proof (updateMembers_mutates_nothing
                           (world_of (syncStatus w))) as Hnone.
    unfold none_of in Hnone. rewrite forallb_forall in Hnone.
    specialize (Hnone ev Hin). rewrite Hmut in Hnone. discriminate.
  - unfold logged in Hin. destruct (result_of (updateMembers _));
      split_in Hin; subst ev; discriminate.
Qed.

Lemma heartbeat_tick_writes_only_status_witness :
  exists val l ok,
    Call (KvPut "/status/members/node1" "options: {}" 8004) true
      = Call (KvPut (StatusMemberKey (layout (node Scenario.world_serving_ready)))
                    val l) ok /\
    lease (node Scenario.world_serving_ready) = Some l.
Proof.
  apply (heartbeat_tick_writes_only_status Scenario.world_serving_ready).
  - vm_compute. auto 10.
  - reflexivity.
Defined.

(* ===================================================================== *)
(** ** Bootstrap *)

Lemma bind_run {A B} (m : Go A) (k : A -> Go B) (w : world) :
  (m ≫= k) w =
    match m w with
    | (Ok a, w1, t1) => let '(r, w2, t2) := k a w1 in (r, w2, t1 ++ t2)
    | (Err e, w1, t1) => (Err e, w1, t1)
    | (Panicked p, w1, t1) => (Panicked p, w1, t1)
    end.
Proof. reflexivity. Qed.

Lemma try_run {A} (m : Go A) (w : world) :
  try m w =
    match m w with
    | (Ok a, w1, t) => (Ok (inr a), w1, t)
    | (Err e, w1, t) => (Ok (inl e), w1, t)
    | (Panicked p, w1, t) => (Panicked p, w1, t)
    end.
Proof. reflexivity. Qed.

(** [getReady], with its two repeated parts named. *)
Lemma getReady_eq (r : race) :
  getReady r =
    (c ← this;
     if String.eqb (ClusterRole (opt c)) "reader" then client_then_lease
     else
       join_if_known c;;
       rs ← try startServer;
       match rs with
       | inl err => mret (NotReady (StartServerFailed err))
       | inr st =>
           sig ← match st with
                 | AlreadyDone => mret DoneClosed
                 | Starting s => serverStarter s r
                 end;
           match sig with
           | DoneClosed => client_then_lease
           | TimeoutClosed => mret (NotReady StartServerTimeout)
           | NoSignal => mret Waiting
           end
       end).
Proof. reflexivity. Qed.

Section ServerKept.

Variable v : option handle.

Let P : cluster -> Prop := fun c => server c = v.

Lemma getClient_keeps_server : frames (on_node P) getClient.
Proof.
  unfold getClient, clientv3_New.
  frame_go ltac:(idtac; node_leaf ltac:(assumption)).
Qed.

Lemma initLease_keeps_server : frames (on_node P) initLease.
Proof.
  unfold initLease, Get, client_Get, Lease_Grant.
  frame_go ltac:(idtac; first
    [ node_leaf ltac:(assumption) | apply getLease_inv
    | apply getClient_keeps_server
    | apply PutUnderLease_inv ]).
Qed.

End ServerKept.

(** When the last two steps of [getReady] end with [Ready], the client and
    the lease are cached and the server field is as before. *)
Lemma client_then_lease_ready (w : world) :
  result_of (client_then_lease w) = Ok Ready ->
  let w' := world_of (client_then_lease w) in
  (exists cli, client (node w') = Some cli) /\
  (exists l, lease (node w') = Some l) /\
  server (node w') = server (node w).
Proof.
  unfold client_then_lease. rewrite bind_run, try_run.
  pose proof (getClient_result w) as Hc.
  pose proof (getClient_keeps_server (server (node w)) w eq_refl) as Hs1.
  unfold on_node in Hs1.
  destruct (getClient w) as [[[cli | e | p] w1] t1];
    unfold result_of, world_of in *; cbn [fst snd] in *;
    [| intros H; discriminate | intros H; discriminate].
  rewrite bind_run, try_run.
  pose proof (initLease_keeps_client cli w1 Hc) as Hc2.
  pose proof (initLease_keeps_server (server (node w1)) w1 eq_refl) as Hs2.
  pose proof (initLease_outcome w1) as Hout.
  pose proof (initLease_cached w1) as Hcached.
  unfold on_node, result_of, world_of in *. cbv zeta in Hout.
  destruct (initLease w1) as [[[[] | e | p] w2] t2] eqn:Einit;
    cbn [fst snd] in *; [| intros H; discriminate | intros H; discriminate].
  intros _. cbn. split; [eauto |]. split; [| congruence].
  destruct (lease (node w1)) as [l |] eqn:Hl.
  - specialize (Hcached l eq_refl). injection Hcached as <- _. eauto.
  - exact (Hout eq_refl).
Qed.

Lemma startServer_result (w : world) :
  match result_of (startServer w) with
  | Ok AlreadyDone =>
      (exists s, server (node w) = Some s) /\ world_of (startServer w) = w
  | Ok (Starting s) =>
      server (node w) = None /\ node (world_of (startServer w)) = node w
  | Err _ => node (world_of (startServer w)) = node w
  | Panicked _ => False
  end.
Proof.
  unfold startServer, alloc. go_unfold. cbn. go_cases; eauto.
Qed.

Lemma serverStarter_done (s : handle) (r : race) (w : world) :
  result_of (serverStarter s r w) = Ok DoneClosed ->
  server (node (world_of (serverStarter s r w))) = Some s.
Proof.
  destruct r; unfold serverStarter, closeEtcdServer; go_unfold; cbn;
    go_cases; intros H; try discriminate; reflexivity.
Qed.

(** X22.  When [getReady] returns nil the node is cluster-ready: the
    client and the lease are cached, and on a node that is not a reader
    the server is cached as well. *)
Theorem getReady_ready (r : race) (w : world) :
  result_of (getReady r w) = Ok Ready ->
  let w' := world_of (getReady r w) in
  (exists cli, getClient w' = (Ok cli, w', [])) /\
  (exists l, getLease w' = (Ok l, w', [])) /\
  (ClusterRole (opt (node w)) <> "reader" ->
   exists s, getServer w' = (Ok s, w', [])).
Proof.
  intros Hready. cbv zeta.
  assert (H : (exists cli, client (node (world_of (getReady r w))) = Some cli) /\
              (exists l, lease (node (world_of (getReady r w))) = Some l) /\
              (ClusterRole (opt (node w)) <> "reader" ->
               exists s, server (node (world_of (getReady r w))) = Some s)).
  { destruct (getReady r w) as [[res w'] t] eqn:Hrun.
    unfold result_of, world_of in *. cbn [fst snd] in *. subst res.
    rewrite getReady_eq, bind_run in Hrun. unfold this at 1 in Hrun.
    cbv iota beta in Hrun.
    destruct (String.eqb (ClusterRole (opt (node w))) "reader") eqn:Hrole.
    - apply String.eqb_eq in Hrole.
      pose proof (client_then_lease_ready w) as Htail. cbv zeta in Htail.
      destruct (client_then_lease w) as [[rt wt] tt'].
      unfold result_of, world_of in *. cbn [fst snd] in *.
      injection Hrun as -> -> _.
      destruct (Htail eq_refl) as (Hc & Hl & _).
      split; [exact Hc |]. split; [exact Hl | congruence].
    - rewrite bind_run in Hrun.
      destruct (join_if_known (node w) w) as [[[[] | e | p] w1] t1];
        cbv iota beta in Hrun; [| discriminate | discriminate].
      rewrite bind_run, try_run in Hrun.
      pose proof (startServer_result w1) as Hstart.
      destruct (startServer w1) as [[[st | e | p] w2] t2];
        unfold result_of, world_of in Hstart; cbn [fst snd] in Hstart;
        cbv iota beta in Hrun; [| discriminate | destruct Hstart].
      rewrite bind_run in Hrun.
      assert (Hsrv : forall w3 t3,
                 (match st with
                  | AlreadyDone => mret DoneClosed
                  | Starting s => serverStarter s r
                  end) w2 = (Ok DoneClosed, w3, t3) ->
                 exists s, server (node w3) = Some s).
      { intros w3 t3 Hstep. destruct st as [| s].
        - injection Hstep as <- _. destruct Hstart as [[s Hs] ->]. eauto.
        - exists s. pose proof (serverStarter_done s r w2) as Hd.
          rewrite Hstep in Hd. apply Hd. reflexivity. }
      destruct ((match st with
                 | AlreadyDone => mret DoneClosed
                 | Starting s => serverStarter s r
                 end) w2) as [[[sig | e | p] w3] t3];
        cbv iota beta in Hrun; [| discriminate | discriminate].
      destruct sig; cbv iota beta in Hrun; [discriminate | | discriminate].
      destruct (Hsrv w3 t3 eq_refl) as [s Hs].
      pose proof (client_then_lease_ready w3) as Htail. cbv zeta in Htail.
      destruct (client_then_lease w3) as [[rt wt] tt'].
      unfold result_of, world_of in *. cbn [fst snd] in *.
      injection Hrun as -> -> _.
      destruct (Htail eq_refl) as (Hc & Hl & Hsv).
      split; [exact Hc |]. split; [exact Hl |].
      intros _. exists s. congruence. }
  destruct H as ((cli & Hc) & (l & Hl) & Hs).
  split; [exists cli; apply getClient_cached, Hc |].
  split; [exists l; rewrite getLease_spec, Hl; reflexivity |].
  intros Hrole. destruct (Hs Hrole) as [s Hsv].
  exists s. rewrite getServer_spec, Hsv. reflexivity.
Qed.

Lemma getReady_ready_witness :
  let w' := world_of (getReady RaceReady Sample.world0) in
  (exists cli, getClient w' = (Ok cli, w', [])) /\
  (exists s, getServer w' = (Ok s, w', [])).
Proof.
  pose proof (getReady_ready RaceReady Sample.world0 eq_refl) as H.
  cbv zeta in *. destruct H as (Hc & _ & Hs).
  split; [exact Hc | apply Hs; discriminate].
Defined.

(** X23.  On a reader, [getReady] is the client lookup followed by
    [initLease] and nothing else: it starts no server, reads no member
    list and adds no member, leaves the server field and the membership
    view as they are, and always returns (it neither waits nor panics). *)
Theorem getReady_reader (r : race) (w : world) :
  ClusterRole (opt (node w)) = "reader" ->
  let o := getReady r w in
  none_of starts_or_joins (trace_of o) /\
  server (node (world_of o)) = server (node w) /\
  cmembers (node (world_of o)) = cmembers (node w) /\
  result_of o <> Ok Waiting /\
  (forall p, result_of o <> Panicked p).
Proof.
  intros Hrole. cbv zeta. unfold getReady, none_of.
  unfold initLease, PutUnderLease, getLease, Get, client_Get, client_Put,
    Lease_Grant, getClient, clientv3_New, alloc.
  go_unfold. cbn. rewrite Hrole. cbn.
  go_cases; repeat split; try reflexivity; try discriminate.
Qed.

Lemma getReady_reader_witness :
  result_of (getReady RaceTimeout Scenario.world_reader) = Ok Ready /\
  server (node (world_of (getReady RaceTimeout Scenario.world_reader))) = None.
Proof.
  pose proof (getReady_reader RaceTimeout Scenario.world_reader eq_refl) as H.
  cbv zeta in H. destruct H as (_ & Hs & _).
  split; [reflexivity | exact Hs].
Defined.

(* ===================================================================== *)
(** ** The retry loop of [run] *)

Section Emits.

Variable q : event -> bool.

Lemma emits_ret {A} (a : A) : emits q (mret a).
Proof. intros w. reflexivity. Qed.

Lemma emits_bind {A B} (m : Go A) (k : A -> Go B) :
  emits q m -> (forall a, emits q (k a)) -> emits q (m ≫= k).
Proof.
  intros Hm Hk w. specialize (Hm w). rewrite bind_run.
  unfold trace_of in *.
  destruct (m w) as [[[a | e | p] w1] t1]; cbn [snd] in *; try exact Hm.
  specialize (Hk a w1). unfold trace_of in Hk.
  destruct (k a w1) as [[r w2] t2]. cbn [snd] in *.
  rewrite forallb_app, Hm, Hk. reflexivity.
Qed.

Lemma emits_try {A} (m : Go A) : emits q m -> emits q (try m).
Proof.
  intros Hm w. specialize (Hm w). rewrite try_run. unfold trace_of in *.
  destruct (m w) as [[[a | e | p] w1] t1]; exact Hm.
Qed.

Lemma emits_wrap_err {A} (f : error -> error) (m : Go A) :
  emits q m -> emits q (wrap_err f m).
Proof.
  intros Hm w. specialize (Hm w). unfold wrap_err, trace_of in *.
  destruct (m w) as [[[a | e | p] w1] t1]; exact Hm.
Qed.

Lemma emits_this : emits q this.
Proof. intros w. reflexivity. Qed.

Lemma emits_throw {A} (e : error) : emits q (@throw A e).
Proof. intros w. reflexivity. Qed.

Lemma emits_panic {A} (p : panic) : emits q (@go_panic A p).
Proof. intros w. reflexivity. Qed.

Lemma emits_update (f : cluster -> cluster) : emits q (update f).
Proof. intros w. reflexivity. Qed.

Lemma emits_call {A} (r : rpc) (serve : etcd -> A * etcd) :
  q (Call r true) = true -> q (Call r false) = true ->
  emits q (call r serve).
Proof.
  intros Ht Hf w. unfold call, trace_of.
  destruct (fails _ _ _); [| destruct (serve (env w))]; cbn;
    rewrite ?Ht, ?Hf; reflexivity.
Qed.

Lemma emits_act (r : rpc) (effect : etcd -> etcd) :
  q (Call r true) = true -> emits q (act r effect).
Proof. intros Ht w. cbn. rewrite Ht. reflexivity. Qed.

Lemma emits_logf (lv : level) (msg : string) :
  q (Log lv msg) = true -> emits q (logf lv msg).
Proof. intros H w. cbn. rewrite H. reflexivity. Qed.

End Emits.

Ltac emit_go leaf :=
  repeat first
    [ apply emits_ret
    | apply emits_this
    | apply emits_throw
    | apply emits_panic
    | apply emits_update
    | apply emits_try
    | apply emits_wrap_err
    | apply emits_call; reflexivity
    | apply emits_act; reflexivity
    | apply emits_logf; vm_compute; reflexivity
    | match goal with
      | |- emits _ (match ?x with _ => _ end) => destruct x
      | |- emits _ (if ?x then _ else _) => destruct x
      | |- emits _ (ready_notified _) => intros ?; reflexivity
      | |- emits _ (fun w => (Ok w, w, [])) => intros ?; reflexivity
      end
    | leaf
    | apply emits_bind; [| intros ?] ].

Section NoRetryReport.

Let q := not_a_retry_report.

Lemma getClient_no_report : emits q getClient.
Proof. unfold getClient, clientv3_New. emit_go fail. Qed.

Lemma getLease_no_report : emits q getLease.
Proof. unfold getLease. emit_go fail. Qed.

Lemma initLease_no_report : emits q initLease.
Proof.
  unfold initLease, Get, client_Get, Lease_Grant, PutUnderLease, client_Put.
  emit_go ltac:(idtac; first [apply getLease_no_report
                             | apply getClient_no_report]).
Qed.

Lemma find_self_no_report (me : member) (ms : list pb.Member) :
  emits q (find_self me ms).
Proof.
  induction ms as [| m ms IH]; cbn [find_self].
  - apply emits_ret.
  - emit_go ltac:(idtac; apply IH).
Qed.

Lemma addSelfToCluster_no_report : emits q addSelfToCluster.
Proof.
  unfold addSelfToCluster, client_MemberList, client_MemberAdd.
  emit_go ltac:(idtac; first [apply getClient_no_report
                             | apply find_self_no_report]).
Qed.

Lemma closeEtcdServer_no_report (s : handle) : emits q (closeEtcdServer s).
Proof. unfold closeEtcdServer. emit_go fail. Qed.

Lemma getReady_no_report (r : race) : emits q (getReady r).
Proof.
  unfold getReady, startServer, serverStarter.
  emit_go ltac:(idtac; first
    [ apply getClient_no_report | apply initLease_no_report
    | apply addSelfToCluster_no_report | apply closeEtcdServer_no_report ]).
Qed.

End NoRetryReport.

Lemma count_of_app (p : event -> bool) (t1 t2 : list event) :
  count_of p (t1 ++ t2) = (count_of p t1 + count_of p t2)%nat.
Proof. unfold count_of. rewrite List.filter_app, length_app. reflexivity. Qed.

Lemma count_of_none (p q : event -> bool) (t : list event) :
  (forall ev, q ev = true -> p ev = false) ->
  forallb q t = true -> count_of p t = 0%nat.
Proof.
  intros Hq. unfold count_of. induction t as [| ev t IH]; [reflexivity |].
  cbn. intros H. apply andb_prop in H. destruct H as [Hev Ht].
  rewrite (Hq ev Hev). apply IH, Ht.
Qed.

Lemma count_of_cons (p : event -> bool) (ev : event) (t : list event) :
  count_of p (ev :: t) = ((if p ev then 1 else 0) + count_of p t)%nat.
Proof. unfold count_of. cbn. destruct (p ev); reflexivity. Qed.

(** The two report lines in a trace of the retry loop started at retry
    count [i]. *)
Lemma bootstrap_reports (races : list race) :
  forall (i : nat) (w : world),
    let t := trace_of (bootstrap races i w) in
    count_of is_too_many_line t
    = (count_of is_retry_line t + i - Nat.max i 4)%nat.
Proof.
  induction races as [| r rest IH]; intros i w; cbv zeta.
  - cbn. lia.
  - cbn [bootstrap]. rewrite bind_run.
    pose proof (getReady_no_report r w) as Hq. unfold trace_of in Hq.
    destruct (getReady r w) as [[[o | e | p] w1] t1]; cbn [snd] in Hq.
    2, 3: unfold trace_of; cbn [snd];
          rewrite (count_of_none is_too_many_line _ _
                     ltac:(intros ev H; unfold not_a_retry_report in H;
                           apply andb_prop in H; destruct H as [_ H];
                           apply negb_true_iff in H; exact H) Hq),
                  (count_of_none is_retry_line _ _
                     ltac:(intros ev H; unfold not_a_retry_report in H;
                           apply andb_prop in H; destruct H as [H _];
                           apply negb_true_iff in H; exact H) Hq); lia.
    assert (H1 : count_of is_too_many_line t1 = 0%nat).
    { apply (count_of_none _ not_a_retry_report); [| exact Hq].
      intros ev H. unfold not_a_retry_report in H.
      apply andb_prop in H. destruct H as [_ H].
      apply negb_true_iff in H. exact H. }
    assert (H2 : count_of is_retry_line t1 = 0%nat).
    { apply (count_of_none _ not_a_retry_report); [| exact Hq].
      intros ev H. unfold not_a_retry_report in H.
      apply andb_prop in H. destruct H as [H _].
      apply negb_true_iff in H. exact H. }
    destruct o as [| e |].
    + unfold trace_of. cbn -[count_of Nat.max Nat.sub Nat.add].
      rewrite app_nil_r, H1, H2. lia.
    + rewrite !bind_run. unfold logf, emit. cbv iota beta.
      specialize (IH (S i) w1). cbv zeta in IH. unfold trace_of in *.
      assert (Hr1 : is_retry_line (Log Error retry_line) = true)
        by reflexivity.
      assert (Hr2 : is_too_many_line (Log Error retry_line) = false)
        by reflexivity.
      assert (Hm1 : is_retry_line (Log Error too_many_line) = false)
        by reflexivity.
      assert (Hm2 : is_too_many_line (Log Error too_many_line) = true)
        by reflexivity.
      destruct (3 <? i)%nat eqn:Hi; rewrite bind_run;
        unfold mret, Go_ret, go_ret; cbv iota beta;
        destruct (bootstrap rest (S i) w1) as [[rb wb] tb];
        cbn [snd app] in *;
        rewrite !count_of_app, !count_of_cons, H1, H2, IH,
          ?Hr1, ?Hr2, ?Hm1, ?Hm2;
        [apply Nat.ltb_lt in Hi | apply Nat.ltb_ge in Hi]; lia.
    + unfold trace_of. cbn -[count_of Nat.max Nat.sub Nat.add].
      rewrite app_nil_r, H1, H2. lia.
Qed.

(** X24.  The retry loop of [run] logs one line for every failed attempt
    and adds the "too many times" line only when the retry count exceeds
    three: in every run the first four failures are reported without it,
    each later one with it. *)
Theorem bootstrap_escalates_after_four (races : list race) (w : world) :
  let t := trace_of (bootstrap races 0 w) in
  count_of is_too_many_line t = (count_of is_retry_line t - 4)%nat.
Proof.
  cbv zeta. rewrite (bootstrap_reports races 0 w). cbn [Nat.max]. lia.
Qed.

(* ===================================================================== *)
(** ** The defragmentation loop with a client *)

Lemma defrag_loop_with_client (sched : list wake) (cli : handle) :
  forall (i : Duration) (w : world),
    client (node w) = Some cli ->
    (i = defragNormalInterval \/ i = defragFailedInterval) ->
    let o := defrag_loop sched i w in
    node (world_of o) = node w /\
    (exists st i',
       result_of o = Ok (st, i') /\
       (i' = defragNormalInterval \/ i' = defragFailedInterval) /\
       (st = Returned <-> done (node w) = true /\ In Shutdown sched)) /\
    count_of is_defragment (trace_of o) = timers_before_shutdown sched /\
    count_of is_call (trace_of o) = timers_before_shutdown sched.
Proof.
  induction sched as [| k rest IH]; intros i w Hc Hi; cbv zeta.
  - cbn. split; [reflexivity |]. split; [| split; reflexivity].
    exists Blocked, i. split; [reflexivity |]. split; [exact Hi |].
    split; [discriminate | intros [_ []]].
  - destruct k.
    + cbn [defrag_loop timers_before_shutdown]. rewrite bind_run.
      pose proof (defrag_tick_backoff w cli i Hc) as Htick.
      cbv zeta in Htick. unfold result_of, world_of, trace_of in *.
      destruct (defrag_tick i w) as [[rt w1] t1]. cbn [fst snd] in *.
      destruct Htick as [Hnode [[-> ->] | [-> ->]]].
      all: cbv iota beta.
      all: assert (Hc1 : client (node w1) = Some cli) by congruence.
      all: match goal with
           | |- context [defrag_loop _ ?i' ?w'] =>
               specialize (IH i' w' Hc1 ltac:(auto))
           end.
      all: cbv zeta in IH.
      all: match goal with
           | |- context [defrag_loop ?r ?i' ?w'] =>
               destruct (defrag_loop r i' w') as [[rl w2] t2]
           end; cbn [fst snd] in *.
      all: destruct IH as (Hn2 & (st & i' & Hres & Hi' & Hiff) & Hcnt & Hcall).
      all: split; [congruence |].
      all: split;
        [ exists st, i'; split; [exact Hres |]; split; [exact Hi' |];
          rewrite Hiff, Hnode; cbn;
          split; [intros [? ?]; auto
                 | intros [? [? | ?]]; [discriminate | auto]]
        | unfold count_of in *; cbn; rewrite Hcnt, Hcall; split; reflexivity ].
    + cbn [defrag_loop timers_before_shutdown]. unfold count_of.
      unfold mbind, mret, Go_bind, Go_ret, go_bind, go_ret, this.
      unfold result_of, world_of, trace_of. cbn.
      destruct (done (node w)) eqn:Hd; cbn.
      * split; [reflexivity |]. split; [| split; reflexivity].
        exists Returned, i. split; [reflexivity |]. split; [exact Hi |].
        split; auto.
      * split; [reflexivity |]. split; [| split; reflexivity].
        exists Blocked, i. split; [reflexivity |]. split; [exact Hi |].
        split; [discriminate | intros [? _]; discriminate].
Qed.

(** X25.  With a cached client the defragmentation loop never panics and
    never fails: it makes one defragmentation request per timer wake-up
    and no other call, keeps its interval at one of the two values, leaves
    the [cluster] struct untouched, and returns only at a wake-up on the
    closed [done] channel. *)
Theorem defrag_with_client (sched : list wake) (cli : handle) (w : world) :
  client (node w) = Some cli ->
  let o := defrag sched w in
  node (world_of o) = node w /\
  (exists st i,
     result_of o = Ok (st, i) /\
     (i = defragNormalInterval \/ i = defragFailedInterval) /\
     (st = Returned <-> done (node w) = true /\ In Shutdown sched)) /\
  count_of is_defragment (trace_of o) = timers_before_shutdown sched /\
  count_of is_call (trace_of o) = timers_before_shutdown sched.
Proof.
  intros Hc. unfold defrag.
  apply (defrag_loop_with_client sched cli); auto.
Qed.

Lemma defrag_with_client_witness :
  count_of is_defragment
    (trace_of (defrag [Timer; Timer; Shutdown; Timer] Sample.world_ready))
    = 2%nat.
Proof.
  pose proof (defrag_with_client [Timer; Timer; Shutdown; Timer] 1%nat
                Sample.world_ready eq_refl) as H.
  cbv zeta in H. destruct H as (_ & _ & Hcount & _). exact Hcount.
Defined.
